(** * ShutApp backend: the store and its HTTP boundary

    A shallow embedding of [src/app.py]: the SQLite store ([init_db],
    [add_post], [get_feed], [inc_reaction]), the FastAPI handlers
    ([api_feed], [api_bot_post], [api_react]) that call it, and the
    handlers of the bot ([start], [newpost], [save_post], [fallback]).

    Modelling choices.
    - A table with a PRIMARY KEY is a finite map from the key to the other
      columns: [posts] is keyed by [id], [reactions] by [(post_id, type)].
    - Python [int] is [Z].  SQLite stores 64-bit integers: an integer
      that a request brings in (a cursor, a limit, a post id) is checked
      where it is bound to a statement, and sqlite3 raises
      [OverflowError] when it does not fit; the integers [add_post] takes
      from the clock and the ids read back from the tables fit.
    - [str] is [string], holding the UTF-8 encoding of the text.
    - [time.time()] is a reading of the wall clock, a rational number of
      seconds, handed to [add_post] by its caller; [int(...)] truncates
      toward zero.  The rounding of the binary64 product [t * 1000] is
      not part of the model.
    - Every store function opens its own connection.  Statements act on the
      connection's pending state, [commit] makes it durable, and closing
      the connection (also by an exception) drops what was not committed.
    - The handlers run one at a time: an [await] inside a store function
      is not a point where another request is interleaved.
    - A handler of the bot sees one conversation: its FSM state, the
      replies sent to it and the store; the process keeps the state of
      every conversation by chat and user.  aiogram offers a message to
      the handlers in the order of their registration; its
      [CommandStart()] filter is a parameter. *)

From stdpp Require Import gmap strings list fin_maps sorting.
From Stdlib Require Import Ascii ZArith QArith Qround Lia.

Local Open Scope string_scope.
Local Open Scope list_scope.
Local Open Scope Z_scope.

(** ** Python values *)

(** A text is held as its UTF-8 encoding, one [ascii] per byte.  A byte
    [10xxxxxx] continues the character that the byte before it belongs
    to. *)
Definition continuation (a : ascii) : bool :=
  let n := Z.of_N (N_of_ascii a) in (128 <=? n) && (n <? 192).

(** The characters of a text, each with its bytes. *)
Fixpoint chars (s : string) : list string :=
  match s with
  | EmptyString => []
  | String a s' =>
      match chars s' with
      | String b c :: cs =>
          if continuation b then String a (String b c) :: cs
          else String a EmptyString :: String b c :: cs
      | cs => String a EmptyString :: cs
      end
  end.

Definition join (cs : list string) : string := foldr String.append "" cs.

Definition utf8 (bytes : list Z) : string :=
  foldr (λ b s, String (ascii_of_N (Z.to_N b)) s) "" bytes.

(** The characters for which [str.isspace] holds: U+0009..U+000D,
    U+001C..U+0020, U+0085, U+00A0, U+1680, U+2000..U+200A, U+2028,
    U+2029, U+202F, U+205F and U+3000. *)
Definition WHITESPACE : list string :=
  utf8 <$> [[9]; [10]; [11]; [12]; [13]; [28]; [29]; [30]; [31]; [32];
            [194; 133]; [194; 160]; [225; 154; 128];
            [226; 128; 128]; [226; 128; 129]; [226; 128; 130]; [226; 128; 131];
            [226; 128; 132]; [226; 128; 133]; [226; 128; 134]; [226; 128; 135];
            [226; 128; 136]; [226; 128; 137]; [226; 128; 138];
            [226; 128; 168]; [226; 128; 169]; [226; 128; 175];
            [226; 129; 159]; [227; 128; 128]].

Definition isspace (c : string) : bool := bool_decide (c ∈ WHITESPACE).

Fixpoint lstrip (cs : list string) : list string :=
  match cs with
  | [] => []
  | c :: cs' => if isspace c then lstrip cs' else cs
  end.

Fixpoint rstrip (cs : list string) : list string :=
  match cs with
  | [] => []
  | c :: cs' =>
      match rstrip cs' with
      | [] => if isspace c then [] else [c]
      | r => c :: r
      end
  end.

(** [s.strip()] *)
Definition strip (s : string) : string := join (rstrip (lstrip (chars s))).

(** [int(x)] for a float [x]: truncation toward zero. *)
Definition py_int (x : Q) : Z :=
  if Qle_bool 0 x then Qfloor x else Qceiling x.

(** Truth value of an [int | None]: [None] and [0] are false. *)
Definition truthy (c : option Z) : bool :=
  match c with
  | None => false
  | Some n => negb (n =? 0)
  end.

(** ** Exceptions and results *)

Inductive exn :=
  | ValueError (msg : string)
  | IntegrityError
  | OverflowError.

Inductive result (A : Type) :=
  | Return (a : A)
  | Raise (e : exn).
Arguments Return {A} a.
Arguments Raise {A} e.

(** ** The database *)

Record post_row := { row_text : string; row_ts : Z }.

Record database := {
  posts : gmap Z post_row;
  reactions : gmap (Z * string) Z
}.

(** The file after [init_db] on a fresh path: both tables, no rows. *)
Definition empty_db : database := {| posts := ∅; reactions := ∅ |}.

(** [CREATE TABLE IF NOT EXISTS] twice, then commit: existing tables and
    their rows are left as they are. *)
Definition init_db (db : database) : database := db.

Definition REACTIONS : list string := ["support"; "hug"; "sad"].

(** ** Connections *)

Record connection := { durable : database; pending : database }.

Definition Sql (A : Type) : Type := connection → result A * connection.

#[global] Instance sql_ret : MRet Sql := λ A a c, (Return a, c).

#[global] Instance sql_bind : MBind Sql := λ A B k m c,
  match m c with
  | (Return a, c') => k a c'
  | (Raise e, c') => (Raise e, c')
  end.

(** [async with aiosqlite.connect(DB_PATH) as db: body] *)
Definition connect {A} (body : Sql A) (db : database) : result A * database :=
  let '(r, c) := body {| durable := db; pending := db |} in (r, durable c).

(** [await db.commit()] *)
Definition commit : Sql unit :=
  λ c, (Return tt, {| durable := pending c; pending := pending c |}).

Definition on_pending (f : database → database) : Sql unit :=
  λ c, (Return tt, {| durable := durable c; pending := f (pending c) |}).

(** [INSERT INTO posts(id, text, ts) VALUES(?,?,?)]: a taken id violates
    the primary key. *)
Definition insert_post (pid : Z) (text : string) (ts : Z) : Sql unit :=
  λ c, match posts (pending c) !! pid with
       | Some _ => (Raise IntegrityError, c)
       | None =>
           on_pending (λ d, {| posts := <[pid := {| row_text := text; row_ts := ts |}]> (posts d);
                               reactions := reactions d |}) c
       end.

(** [INSERT OR IGNORE INTO reactions(post_id, type, count) VALUES(?,?,0)] *)
Definition insert_or_ignore_reaction (pid : Z) (t : string) : Sql unit :=
  on_pending (λ d,
    {| posts := posts d;
       reactions := match reactions d !! (pid, t) with
                    | Some _ => reactions d
                    | None => <[(pid, t) := 0]> (reactions d)
                    end |}).

(** The integers SQLite stores. *)
Definition int64 (n : Z) : Prop :=
  -9223372036854775808 ≤ n ∧ n ≤ 9223372036854775807.

#[global] Instance int64_dec n : Decision (int64 n).
Proof. unfold int64. apply _. Defined.

(** A statement that reads the pending state. *)
Definition query {A} (f : database → A) : Sql A :=
  λ c, (Return (f (pending c)), c).

(** Binding a Python int to a parameter of a statement. *)
Definition bind_int (n : Z) : Sql unit :=
  λ c, if bool_decide (int64 n) then (Return tt, c) else (Raise OverflowError, c).

(** [UPDATE reactions SET count = count + 1 WHERE post_id = ? AND type = ?] *)
Definition update_reaction (pid : Z) (t : string) : Sql unit :=
  bind_int pid;;
  on_pending (λ d,
    {| posts := posts d;
       reactions := alter (λ n, n + 1) (pid, t) (reactions d) |}).

(** [ORDER BY id DESC] *)
Definition id_desc (r1 r2 : Z * post_row) : Prop := r2.1 ≤ r1.1.

#[global] Instance id_desc_dec r1 r2 : Decision (id_desc r1 r2).
Proof. unfold id_desc. apply _. Defined.

Definition order_by_id_desc (rows : list (Z * post_row)) : list (Z * post_row) :=
  merge_sort id_desc rows.

(** [LIMIT ?]: a negative limit is no limit. *)
Definition sql_limit {A} (n : Z) (rows : list A) : list A :=
  if n <? 0 then rows else take (Z.to_nat n) rows.

(** [SELECT id, text, ts FROM posts WHERE id < ? ORDER BY id DESC LIMIT ?] *)
Definition select_posts_before (cursor limit : Z) : Sql (list (Z * post_row)) :=
  bind_int cursor;;
  bind_int limit;;
  query (λ d, sql_limit limit (order_by_id_desc
                (filter (λ r, r.1 < cursor) (map_to_list (posts d))))).

(** [SELECT id, text, ts FROM posts ORDER BY id DESC LIMIT ?] *)
Definition select_posts (limit : Z) : Sql (list (Z * post_row)) :=
  bind_int limit;;
  query (λ d, sql_limit limit (order_by_id_desc (map_to_list (posts d)))).

(** [SELECT type, count FROM reactions WHERE post_id = ?] *)
Definition select_reactions (pid : Z) : Sql (list (string * Z)) :=
  λ c, (Return (omap (λ kv, if decide (kv.1.1 = pid) then Some (kv.1.2, kv.2) else None)
                     (map_to_list (reactions (pending c)))), c).

(** ** The store *)

(** [for t in REACTIONS: await db.execute(INSERT OR IGNORE ...)] *)
Fixpoint seed_reactions (pid : Z) (ts : list string) : Sql unit :=
  match ts with
  | [] => mret tt
  | t :: ts' => insert_or_ignore_reaction pid t;; seed_reactions pid ts'
  end.

(** [add_post(text)]; [t_pid] and [t_ts] are its two readings of
    [time.time()], in that order. *)
Definition add_post (t_pid t_ts : Q) (text : string) (db : database)
  : result Z * database :=
  let pid := py_int (t_pid * 1000)%Q in
  let ts := py_int t_ts in
  connect (insert_post pid text ts;;
           seed_reactions pid REACTIONS;;
           commit;;
           mret pid) db.

Record feed_item := {
  feed_id : Z;
  feed_text : string;
  feed_ts : Z;
  feed_reactions : gmap string Z
}.

(** [{t: c for t, c in rrows}] *)
Definition dict_of (rrows : list (string * Z)) : gmap string Z :=
  foldl (λ d tc, <[tc.1 := tc.2]> d) ∅ rrows.

(** The loop of [get_feed] over the fetched rows. *)
Fixpoint attach_reactions (rows : list (Z * post_row)) : Sql (list feed_item) :=
  match rows with
  | [] => mret []
  | (pid, r) :: rows' =>
      rrows ← select_reactions pid;
      out ← attach_reactions rows';
      mret ({| feed_id := pid; feed_text := row_text r; feed_ts := row_ts r;
              feed_reactions := dict_of rrows |} :: out)
  end.

(** [get_feed(cursor, limit)] *)
Definition get_feed (cursor : option Z) (limit : Z) (db : database)
  : result (list feed_item) * database :=
  connect (rows ← (if truthy cursor
                   then select_posts_before (default 0 cursor) limit
                   else select_posts limit);
           attach_reactions rows) db.

(** [inc_reaction(post_id, rtype)] *)
Definition inc_reaction (post_id : Z) (rtype : string) (db : database)
  : result unit * database :=
  if bool_decide (rtype ∈ REACTIONS)
  then connect (update_reaction post_id rtype;; commit) db
  else (Raise (ValueError "bad reaction"), db).

(** ** The HTTP boundary *)

(** What a handler hands to FastAPI: a returned body (status 200), a raised
    [HTTPException], or any other exception, which the framework turns into
    a server error. *)
Inductive response (A : Type) :=
  | Ok200 (body : A)
  | HTTPException (status : Z) (detail : string)
  | Unhandled (e : exn).
Arguments Ok200 {A} body.
Arguments HTTPException {A} status detail.
Arguments Unhandled {A} e.

Definition respond {A} (r : result A * database) : response A * database :=
  match r with
  | (Return a, db) => (Ok200 a, db)
  | (Raise e, db) => (Unhandled e, db)
  end.

(** [{"ok": True, "id": pid}] and [{"ok": True}] *)
Record created := { created_ok : bool; created_id : Z }.
Record ack := { ack_ok : bool }.

(** [GET /feed]; an absent [limit] parameter takes the default 20. *)
Definition api_feed (cursor : option Z) (limit : option Z) (db : database)
  : response (list feed_item) * database :=
  let limit := default 20 limit in
  respond (get_feed cursor (Z.min limit 50) db).

Section Config.
(** [config.BOT_SECRET], the configured shared secret. *)
Variable BOT_SECRET : string.

(** [POST /bot/post]; [t_pid] and [t_ts] are the clock readings
    [add_post] takes when it is reached. *)
Definition api_bot_post (t_pid t_ts : Q) (data_text : string)
    (x_bot_secret : option string) (db : database)
  : response created * database :=
  if bool_decide (x_bot_secret ≠ Some BOT_SECRET)
  then (HTTPException 401 "bad secret", db)
  else
    let text := strip data_text in
    if bool_decide (text = "")
    then (HTTPException 400 "empty", db)
    else
      match add_post t_pid t_ts text db with
      | (Return pid, db') => (Ok200 {| created_ok := true; created_id := pid |}, db')
      | (Raise e, db') => (Unhandled e, db')
      end.
End Config.

(** [POST /posts/{post_id}/react] *)
Definition api_react (post_id : Z) (data_type : string) (db : database)
  : response ack * database :=
  match inc_reaction post_id data_type db with
  | (Return _, db') => (Ok200 {| ack_ok := true |}, db')
  | (Raise (ValueError _), db') => (HTTPException 400 "bad reaction", db')
  | (Raise e, db') => (Unhandled e, db')
  end.

(** ** Histories of the store *)

Inductive request :=
  | InitDb
  | AddPost (t_pid t_ts : Q) (text : string)
  | GetFeed (cursor : option Z) (limit : Z)
  | IncReaction (post_id : Z) (rtype : string).

Definition step (db : database) (r : request) : database :=
  match r with
  | InitDb => init_db db
  | AddPost t_pid t_ts text => (add_post t_pid t_ts text db).2
  | GetFeed cursor limit => (get_feed cursor limit db).2
  | IncReaction post_id rtype => (inc_reaction post_id rtype db).2
  end.

Definition run (rs : list request) (db : database) : database :=
  foldl step db rs.

(** The clock readings a history takes, in the order it takes them. *)
Definition readings (r : request) : list Q :=
  match r with
  | AddPost t_pid t_ts _ => [t_pid; t_ts]
  | _ => []
  end.

Definition clock (rs : list request) : list Q := rs ≫= readings.

(** The ids of the items of a feed page, in page order. *)
Definition page_ids (r : result (list feed_item) * database) : list Z :=
  match r.1 with
  | Return items => map feed_id items
  | Raise _ => []
  end.

(** ** The bot *)

(** [class NewPost(StatesGroup): text = State()]; a conversation with no
    state set is [None]. *)
Inductive fsm_state := NewPost_text.

#[global] Instance fsm_state_eq_dec : EqDecision fsm_state.
Proof. solve_decision. Defined.

Record button := { button_text : string; button_web_app : string }.

Record reply := {
  reply_text : string;
  reply_markup : option (list (list button))
}.

(** The fields of an incoming [Message] the handlers read: [m.chat.type]
    and [m.text], which is [None] for a message without text. *)
Record message := { chat_type : string; msg_text : option string }.

(** One conversation: its FSM state, the replies sent so far, and the
    store the bot shares with the API. *)
Record session := {
  fsm : option fsm_state;
  outbox : list reply;
  store : database
}.

(** [await m.answer(text, reply_markup=markup)] *)
Definition answer (text : string) (markup : option (list (list button)))
    (s : session) : session :=
  {| fsm := fsm s;
     outbox := outbox s ++ [{| reply_text := text; reply_markup := markup |}];
     store := store s |}.

(** [await state.set_state(st)]; [state.clear()] is [set_fsm None]. *)
Definition set_fsm (st : option fsm_state) (s : session) : session :=
  {| fsm := st; outbox := outbox s; store := store s |}.

Definition GREETING : string := "ShutApp — место, где можно выговориться.

Пиши посты здесь в личке.
Лента и реакции — в приложении.".

Section Bot.
(** [config.WEBAPP_URL], and aiogram's [CommandStart()] filter. *)
Variable WEBAPP_URL : string.
Variable CommandStart : message → bool.

Definition open_app_kb : list (list button) :=
  [[{| button_text := "🖤 Открыть ShutApp"; button_web_app := WEBAPP_URL |}]].

Definition start (m : message) (s : session) : result unit * session :=
  (Return tt, answer GREETING (Some open_app_kb) s).

Definition newpost (m : message) (s : session) : result unit * session :=
  if bool_decide (chat_type m ≠ "private")
  then (Return tt, answer "Посты можно писать только в личке." None s)
  else (Return tt, answer "Напиши текст поста одним сообщением." None
                     (set_fsm (Some NewPost_text) s)).

(** [save_post]; [t_pid] and [t_ts] are the clock readings [add_post]
    takes when it is reached.  An exception of [add_post] ends the handler
    where it is raised. *)
Definition save_post (t_pid t_ts : Q) (m : message) (s : session)
  : result unit * session :=
  let text := strip (default "" (msg_text m)) in
  if bool_decide (text = "")
  then (Return tt, answer "Пусто." None s)
  else
    match add_post t_pid t_ts text (store s) with
    | (Raise e, db') =>
        (Raise e, {| fsm := fsm s; outbox := outbox s; store := db' |})
    | (Return _, db') =>
        (Return tt,
         answer "✅ Пост опубликован." (Some open_app_kb)
           (set_fsm None {| fsm := fsm s; outbox := outbox s; store := db' |}))
    end.

Definition fallback (m : message) (s : session) : result unit * session :=
  (Return tt, answer "Чтобы написать пост: /newpost" (Some open_app_kb) s).

(** The dispatcher offers a message to the handlers in the order they are
    registered and runs the first whose filter accepts it:
    [CommandStart()], [F.text == "/newpost"], the state [NewPost.text],
    and the handler without a filter. *)
Definition dispatch (t_pid t_ts : Q) (m : message) (s : session)
  : result unit * session :=
  if CommandStart m then start m s
  else if bool_decide (msg_text m = Some "/newpost") then newpost m s
  else if bool_decide (fsm s = Some NewPost_text) then save_post t_pid t_ts m s
  else fallback m s.
End Bot.

(** ** The process: API and bot on one store *)

(** The process: the FSM state of every conversation, which aiogram keys
    by chat and user (no entry: no state), the replies sent so far, each
    with the chat it went to, and the store. *)
Record process := {
  states : gmap (Z * Z) fsm_state;
  sent : list (Z * reply);
  pstore : database
}.

(** An update brings a message with the ids of its chat and its sender. *)
Inductive event :=
  | Feed (cursor : option Z) (limit : option Z)
  | BotPost (t_pid t_ts : Q) (data_text : string) (x_bot_secret : option string)
  | React (post_id : Z) (data_type : string)
  | Update (chat user : Z) (t_pid t_ts : Q) (m : message).

Definition with_store (p : process) (db : database) : process :=
  {| states := states p; sent := sent p; pstore := db |}.

(** The conversation a handler sees for a message of [user] in [chat]. *)
Definition conversation (p : process) (chat user : Z) : session :=
  {| fsm := states p !! (chat, user); outbox := []; store := pstore p |}.

(** What the handler leaves: its state for this chat and user, its
    replies, the store. *)
Definition close (p : process) (chat user : Z) (s : session) : process :=
  {| states := match fsm s with
               | Some st => <[(chat, user) := st]> (states p)
               | None => delete (chat, user) (states p)
               end;
     sent := sent p ++ ((λ r, (chat, r)) <$> outbox s);
     pstore := store s |}.

Section Process.
Variable BOT_SECRET WEBAPP_URL : string.
Variable CommandStart : message → bool.

Definition handle (p : process) (ev : event) : process :=
  match ev with
  | Feed cursor limit => with_store p (api_feed cursor limit (pstore p)).2
  | BotPost t_pid t_ts data_text x_bot_secret =>
      with_store p
        (api_bot_post BOT_SECRET t_pid t_ts data_text x_bot_secret (pstore p)).2
  | React post_id data_type => with_store p (api_react post_id data_type (pstore p)).2
  | Update chat user t_pid t_ts m =>
      close p chat user
        (dispatch WEBAPP_URL CommandStart t_pid t_ts m (conversation p chat user)).2
  end.

Definition handle_all (evs : list event) (p : process) : process :=
  foldl handle p evs.
End Process.

(** A conversation without state, on the store [init_db] leaves on a
    fresh file. *)
Definition fresh : session := {| fsm := None; outbox := []; store := init_db empty_db |}.

(** The process after [lifespan] has run [init_db] on a fresh file. *)
Definition started : process :=
  {| states := ∅; sent := []; pstore := init_db empty_db |}.

(** ** The store functions as pure functions *)

(** The three rows of a post, as [select_reactions] fetches them. *)
Definition tally_rows (db : database) (pid : Z) : list (string * Z) :=
  omap (λ kv : Z * string * Z,
          if decide (kv.1.1 = pid) then Some (kv.1.2, kv.2) else None)
       (map_to_list (reactions db)).

Definition item_of (db : database) (r : Z * post_row) : feed_item :=
  {| feed_id := r.1; feed_text := row_text r.2; feed_ts := row_ts r.2;
     feed_reactions := dict_of (tally_rows db r.1) |}.

(** The rows the WHERE clause of [get_feed] lets through, and the rows
    its SELECT fetches. *)
Definition candidates (cursor : option Z) (db : database) : list (Z * post_row) :=
  if truthy cursor
  then filter (λ r, r.1 < default 0 cursor) (map_to_list (posts db))
  else map_to_list (posts db).

Definition feed_rows (cursor : option Z) (limit : Z) (db : database)
  : list (Z * post_row) :=
  sql_limit limit (order_by_id_desc (candidates cursor db)).

(** The reactions table after the seeding loop of [add_post]. *)
Definition seed_rows (pid : Z) (ts : list string) (rs : gmap (Z * string) Z)
  : gmap (Z * string) Z :=
  foldl (λ m t, match m !! (pid, t) with
                | Some _ => m
                | None => <[(pid, t) := 0]> m
                end) rs ts.

(** ** Properties of stores and pages *)

(** A posts row is eligible for a page when it lies below the cursor, if
    there is one. *)
Definition eligible (db : database) (cursor : option Z) (id : Z) : Prop :=
  is_Some (posts db !! id) ∧ ∀ c, cursor = Some c → id < c.

Definition descending : list Z → Prop := StronglySorted (λ a b, b < a).

(** The arguments of a [get_feed] call that its statement can bind: the
    limit, and the cursor when the statement has one. *)
Definition bindable (cursor : option Z) (limit : Z) : Prop :=
  int64 limit ∧ (truthy cursor = true → int64 (default 0 cursor)).

#[global] Instance bindable_dec cursor limit : Decision (bindable cursor limit).
Proof. unfold bindable. apply _. Defined.

(** The reactions table holds a row exactly for every existing post and
    every defined kind. *)
Definition tallies_match_posts (db : database) : Prop :=
  ∀ pid t, is_Some (reactions db !! (pid, t)) ↔
           is_Some (posts db !! pid) ∧ t ∈ REACTIONS.

(** Every existing post has one row per defined kind, and no other row. *)
Definition tallies_complete (db : database) : Prop :=
  ∀ pid, is_Some (posts db !! pid) → (tally_rows db pid).*1 ≡ₚ REACTIONS.

(** A list of characters that does not start with white space. *)
Definition clean_head (cs : list string) : Prop :=
  match cs with
  | [] => True
  | c :: _ => isspace c = false
  end.

Fixpoint all_continuation (t : string) : bool :=
  match t with
  | EmptyString => true
  | String b t' => continuation b && all_continuation t'
  end.

(** One character of [chars]: a byte and the continuation bytes after
    it; [lead_chunk] when that byte is not itself a continuation. *)
Definition chunk (c : string) : Prop :=
  match c with
  | EmptyString => False
  | String _ t => all_continuation t = true
  end.

Definition lead_chunk (c : string) : Prop :=
  match c with
  | EmptyString => False
  | String a t => continuation a = false ∧ all_continuation t = true
  end.

Definition chunked (cs : list string) : Prop :=
  match cs with
  | [] => True
  | c :: cs' => chunk c ∧ Forall lead_chunk cs'
  end.

(** A text as the posting paths store it: stripped and not empty. *)
Definition trimmed (text : string) : Prop := strip text = text ∧ text ≠ "".

(** Every post of the store has a trimmed text. *)
Definition posts_trimmed (db : database) : Prop :=
  ∀ id r, posts db !! id = Some r → trimmed (row_text r).

(** A store request that, when it creates a post, creates it with a
    trimmed text. *)
Definition trimmed_request (r : request) : Prop :=
  match r with
  | AddPost _ _ text => trimmed text
  | _ => True
  end.

#[global] Instance Qle_transitive : Transitive Qle := Qle_trans.

(** ** Example stores *)

(** Posts created at 0.1 s, 0.2 s and 0.3 s: ids 100, 200 and 300. *)
Definition three_posts : database :=
  run [AddPost (1 # 10) (1 # 10) "a"; AddPost (2 # 10) (2 # 10) "b";
       AddPost (3 # 10) (3 # 10) "c"] empty_db.

(** A filter for the examples, in the place of [CommandStart()]: it takes
    the bare /start command. *)
Definition bare_start (m : message) : bool :=
  bool_decide (msg_text m = Some "/start").

(** A conversation with an open draft on an empty store. *)
Definition drafting : session :=
  {| fsm := Some NewPost_text; outbox := []; store := empty_db |}.

(** One post per millisecond from 0.001 s on: ids 1 .. [k]. *)
Definition many_posts (k : nat) : database :=
  run ((λ i, AddPost (Z.of_nat i # 1000) 0 "x") <$> seq 1 k) empty_db.

(** ** What the store functions compute *)

Lemma seed_reactions_eq pid ts c :
  seed_reactions pid ts c =
  (Return tt, {| durable := durable c;
                 pending := {| posts := posts (pending c);
                               reactions := seed_rows pid ts (reactions (pending c)) |} |}).
Proof.
  revert c. induction ts as [|t ts IH]; intros [d [p r]]; [done|].
  cbn [seed_reactions]. unfold mbind, sql_bind.
  unfold insert_or_ignore_reaction, on_pending. cbn -[seed_rows].
  rewrite IH. done.
Qed.

Lemma add_post_eq t_pid t_ts text db :
  add_post t_pid t_ts text db =
  let pid := py_int (t_pid * 1000)%Q in
  match posts db !! pid with
  | Some _ => (Raise IntegrityError, db)
  | None =>
      (Return pid,
       {| posts := <[pid := {| row_text := text; row_ts := py_int t_ts |}]> (posts db);
          reactions := seed_rows pid REACTIONS (reactions db) |})
  end.
Proof.
  unfold add_post, connect, mbind, sql_bind, insert_post. cbn -[seed_rows REACTIONS py_int].
  destruct (posts db !! _); [done|].
  unfold on_pending. cbn -[seed_rows REACTIONS py_int].
  rewrite seed_reactions_eq. done.
Qed.

Lemma seed_rows_lookup pid ts rs k :
  seed_rows pid ts rs !! k =
  match rs !! k with
  | Some n => Some n
  | None => if decide (k.1 = pid ∧ k.2 ∈ ts) then Some 0 else None
  end.
Proof.
  revert rs. induction ts as [|t ts IH]; intros rs.
  - cbn. destruct (rs !! k); [done|]. case_decide as H; [|done].
    destruct H as [_ H]. by apply elem_of_nil in H.
  - change (seed_rows pid (t :: ts) rs) with
      (seed_rows pid ts (match rs !! (pid, t) with
                         | Some _ => rs
                         | None => <[(pid, t) := 0]> rs
                         end)).
    rewrite IH.
    destruct k as [p u]. cbn [fst snd].
    assert (Hin : ∀ q : Z, (q = pid ∧ u ∈ t :: ts) ↔
                    ((q, u) = (pid, t) ∨ (q = pid ∧ u ∈ ts))).
    { intros q. rewrite elem_of_cons. split.
      - intros [-> [->|?]]; auto.
      - intros [[= -> ->]|[-> ?]]; auto. }
    destruct (decide (p = pid ∧ u ∈ ts)) as [D1|D1];
      destruct (decide (p = pid ∧ u ∈ t :: ts)) as [D2|D2];
      try (exfalso; apply D2, Hin; tauto).
    + destruct (rs !! (pid, t)) as [n|] eqn:Ht; [done|].
      destruct (decide ((pid, t) = (p, u))) as [[= <- <-]|Hne].
      * by rewrite lookup_insert_eq, Ht.
      * by rewrite lookup_insert_ne.
    + apply Hin in D2 as [[= -> ->]|?]; [|tauto].
      destruct (rs !! (pid, t)) as [n|] eqn:Ht; [by rewrite Ht|].
      by rewrite lookup_insert_eq.
    + assert ((pid, t) ≠ (p, u)) by (intros [= <- <-]; apply D2, Hin; auto).
      destruct (rs !! (pid, t)) as [n|] eqn:Ht; [done|].
      by rewrite lookup_insert_ne.
Qed.

Lemma seed_rows_other pid ts rs k :
  k.1 ≠ pid → seed_rows pid ts rs !! k = rs !! k.
Proof.
  intros Hk. rewrite seed_rows_lookup. destruct (rs !! k); [done|].
  case_decide as Hd; [|done]. by destruct Hd.
Qed.

Lemma add_post_free t_pid t_ts text db :
  posts db !! py_int (t_pid * 1000)%Q = None →
  ∃ db', add_post t_pid t_ts text db = (Return (py_int (t_pid * 1000)%Q), db') ∧
         posts db' = <[py_int (t_pid * 1000)%Q :=
                         {| row_text := text; row_ts := py_int t_ts |}]> (posts db) ∧
         ∀ t, t ∈ REACTIONS → is_Some (reactions db' !! (py_int (t_pid * 1000)%Q, t)).
Proof.
  intros Hfree. rewrite add_post_eq. cbn zeta. rewrite Hfree.
  eexists. split; [reflexivity|]. split; [reflexivity|].
  intros t Ht. cbn [reactions]. rewrite seed_rows_lookup. cbn [fst snd].
  destruct (reactions db !! _); [eauto|]. rewrite decide_True by done. eauto.
Qed.

Lemma add_post_taken t_pid t_ts text db :
  is_Some (posts db !! py_int (t_pid * 1000)%Q) →
  add_post t_pid t_ts text db = (Raise IntegrityError, db).
Proof. intros [r Hr]. rewrite add_post_eq. cbn zeta. by rewrite Hr. Qed.

Lemma inc_reaction_valid post_id rtype db :
  rtype ∈ REACTIONS → int64 post_id →
  inc_reaction post_id rtype db =
  (Return tt, {| posts := posts db;
                 reactions := alter (λ n, n + 1) (post_id, rtype) (reactions db) |}).
Proof.
  intros H Hid. unfold inc_reaction. rewrite bool_decide_eq_true_2 by done.
  unfold connect, update_reaction, mbind, sql_bind, bind_int.
  by rewrite bool_decide_eq_true_2.
Qed.

Lemma inc_reaction_overflow post_id rtype db :
  rtype ∈ REACTIONS → ¬ int64 post_id →
  inc_reaction post_id rtype db = (Raise OverflowError, db).
Proof.
  intros H Hid. unfold inc_reaction. rewrite bool_decide_eq_true_2 by done.
  unfold connect, update_reaction, mbind, sql_bind, bind_int.
  by rewrite bool_decide_eq_false_2.
Qed.

Lemma inc_reaction_invalid post_id rtype db :
  rtype ∉ REACTIONS →
  inc_reaction post_id rtype db = (Raise (ValueError "bad reaction"), db).
Proof. intros H. unfold inc_reaction. by rewrite bool_decide_eq_false_2. Qed.

Lemma inc_reaction_snd post_id rtype db :
  (inc_reaction post_id rtype db).2 =
  if bool_decide (rtype ∈ REACTIONS ∧ int64 post_id)
  then {| posts := posts db;
          reactions := alter (λ n, n + 1) (post_id, rtype) (reactions db) |}
  else db.
Proof.
  destruct (decide (rtype ∈ REACTIONS)) as [Hin|Hout].
  - destruct (decide (int64 post_id)) as [Hid|Hid].
    + rewrite inc_reaction_valid, bool_decide_eq_true_2 by done. done.
    + rewrite inc_reaction_overflow by done.
      rewrite bool_decide_eq_false_2; [done|]. by intros [_ ?].
  - rewrite inc_reaction_invalid by done.
    rewrite bool_decide_eq_false_2; [done|]. by intros [? _].
Qed.

Lemma attach_reactions_eq rows c :
  attach_reactions rows c = (Return (item_of (pending c) <$> rows), c).
Proof.
  induction rows as [|[pid r] rows IH]; [done|].
  cbn [attach_reactions]. unfold mbind, sql_bind, select_reactions.
  rewrite IH. done.
Qed.

Lemma get_feed_cases cursor limit db :
  get_feed cursor limit db =
  if bool_decide (bindable cursor limit)
  then (Return (item_of db <$> feed_rows cursor limit db), db)
  else (Raise OverflowError, db).
Proof.
  unfold get_feed, connect, feed_rows, candidates.
  destruct (truthy cursor) eqn:Ht; unfold select_posts_before, select_posts;
    unfold mbind, sql_bind, bind_int, query.
  - destruct (decide (int64 (default 0 cursor))) as [Hc|Hc].
    + rewrite (bool_decide_eq_true_2 _ Hc).
      destruct (decide (int64 limit)) as [Hl|Hl].
      * rewrite (bool_decide_eq_true_2 _ Hl), attach_reactions_eq.
        by rewrite (bool_decide_eq_true_2 (bindable cursor limit)).
      * rewrite (bool_decide_eq_false_2 _ Hl).
        rewrite (bool_decide_eq_false_2 (bindable cursor limit)); [done|].
        by intros [? _].
    + rewrite (bool_decide_eq_false_2 _ Hc).
      rewrite (bool_decide_eq_false_2 (bindable cursor limit)); [done|].
      intros [_ H]. by apply Hc, H.
  - destruct (decide (int64 limit)) as [Hl|Hl].
    + rewrite (bool_decide_eq_true_2 _ Hl), attach_reactions_eq.
      rewrite (bool_decide_eq_true_2 (bindable cursor limit)); [done|].
      split; [done|]. by rewrite Ht.
    + rewrite (bool_decide_eq_false_2 _ Hl).
      rewrite (bool_decide_eq_false_2 (bindable cursor limit)); [done|].
      by intros [? _].
Qed.

Lemma get_feed_eq cursor limit db :
  bindable cursor limit →
  get_feed cursor limit db = (Return (item_of db <$> feed_rows cursor limit db), db).
Proof. intros H. by rewrite get_feed_cases, bool_decide_eq_true_2. Qed.

Lemma get_feed_overflow cursor limit db :
  ¬ bindable cursor limit → get_feed cursor limit db = (Raise OverflowError, db).
Proof. intros H. by rewrite get_feed_cases, bool_decide_eq_false_2. Qed.

Lemma get_feed_snd cursor limit db : (get_feed cursor limit db).2 = db.
Proof. rewrite get_feed_cases. by case_bool_decide. Qed.

Lemma get_feed_returns cursor limit db items db' :
  get_feed cursor limit db = (Return items, db') →
  bindable cursor limit ∧ items = item_of db <$> feed_rows cursor limit db ∧ db' = db.
Proof. rewrite get_feed_cases. case_bool_decide; [|done]. by intros [= <- <-]. Qed.

Lemma page_ids_eq cursor limit db :
  bindable cursor limit →
  page_ids (get_feed cursor limit db) = (feed_rows cursor limit db).*1.
Proof.
  intros H. rewrite get_feed_eq by done. unfold page_ids. cbn [fst].
  rewrite <- list_fmap_compose. done.
Qed.

(** ** Pages: sorting by id and cutting at the limit *)

#[global] Instance id_desc_trans : Transitive id_desc.
Proof. intros x y z. unfold id_desc. lia. Qed.

#[global] Instance id_desc_total : Total id_desc.
Proof. intros x y. unfold id_desc. lia. Qed.

Lemma NoDup_fst_filter {A B} (P : A * B → Prop) `{!∀ x, Decision (P x)}
    (l : list (A * B)) :
  NoDup l.*1 → NoDup (filter P l).*1.
Proof.
  induction l as [|x l IH]; [done|].
  rewrite fmap_cons, NoDup_cons. intros [Hx Hl].
  rewrite filter_cons. case_decide; [|auto].
  rewrite fmap_cons, NoDup_cons. split; [|auto].
  intros Hin. apply Hx.
  apply list_elem_of_fmap in Hin as (y & -> & Hy).
  apply list_elem_of_filter in Hy as [_ Hy].
  by apply list_elem_of_fmap_2.
Qed.

Lemma id_desc_strict (l : list (Z * post_row)) :
  StronglySorted id_desc l → NoDup l.*1 → descending l.*1.
Proof.
  induction 1 as [|x l Hl IH Hx]; [constructor|].
  rewrite fmap_cons, NoDup_cons. intros [Hnx Hnd].
  constructor; [by apply IH|].
  apply Forall_fmap, Forall_forall. intros y Hy. cbn.
  rewrite Forall_forall in Hx. specialize (Hx y Hy). unfold id_desc in Hx.
  assert (y.1 ≠ x.1); [|lia].
  intros Heq. apply Hnx. rewrite <- Heq. by apply list_elem_of_fmap_2.
Qed.

Lemma sql_limit_prefix {A} (n : Z) (l : list A) :
  ∃ rest, l = sql_limit n l ++ rest ∧
          (rest ≠ [] → 0 ≤ n ∧ length (sql_limit n l) = Z.to_nat n).
Proof.
  unfold sql_limit. destruct (Z.ltb_spec n 0) as [Hn|Hn].
  - exists []. by rewrite app_nil_r.
  - exists (drop (Z.to_nat n) l). rewrite take_drop. split; [done|].
    intros Hrest. split; [done|]. apply length_take_le.
    destruct (decide (Z.to_nat n ≤ length l)%nat) as [|Hgt]; [done|].
    rewrite drop_ge in Hrest by lia. done.
Qed.

Lemma sql_limit_length {A} (n : Z) (l : list A) :
  0 ≤ n → Z.of_nat (length (sql_limit n l)) ≤ n.
Proof.
  intros Hn. unfold sql_limit. destruct (Z.ltb_spec n 0); [lia|].
  rewrite length_take. lia.
Qed.

Section page.
Context (E : list (Z * post_row)) (n : Z).
Hypothesis keys : NoDup E.*1.

Local Abbreviation page := (sql_limit n (order_by_id_desc E)).

Lemma page_split :
  ∃ rest, order_by_id_desc E = page ++ rest ∧
          (rest ≠ [] → 0 ≤ n ∧ length page = Z.to_nat n).
Proof. apply sql_limit_prefix. Qed.

Lemma order_by_id_desc_descending : descending (order_by_id_desc E).*1.
Proof.
  apply id_desc_strict.
  - apply StronglySorted_merge_sort; apply _.
  - unfold order_by_id_desc. by rewrite merge_sort_Permutation.
Qed.

Lemma page_descending : descending page.*1.
Proof.
  destruct page_split as (rest & Heq & _).
  pose proof order_by_id_desc_descending as Hs.
  rewrite Heq, fmap_app in Hs. by apply StronglySorted_app_1_l in Hs.
Qed.

Lemma page_elem r : r ∈ page → r ∈ E.
Proof.
  destruct page_split as (rest & Heq & _). intros Hr.
  assert (r ∈ order_by_id_desc E) as Hin by (rewrite Heq; set_solver).
  unfold order_by_id_desc in Hin. by rewrite merge_sort_Permutation in Hin.
Qed.

Lemma page_rest r :
  r ∈ E → r.1 ∉ page.*1 →
  0 ≤ n ∧ length page = Z.to_nat n ∧ ∀ id, id ∈ page.*1 → r.1 < id.
Proof.
  destruct page_split as (rest & Heq & Hrest). intros Hr Hout.
  assert (r ∈ order_by_id_desc E) as Hin.
  { unfold order_by_id_desc. by rewrite merge_sort_Permutation. }
  rewrite Heq, elem_of_app in Hin. destruct Hin as [Hin|Hin].
  { exfalso. apply Hout. by apply list_elem_of_fmap_2. }
  destruct Hrest as [Hn Hlen]; [by intros ->; apply elem_of_nil in Hin|].
  split_and!; [done..|]. intros id Hid.
  pose proof order_by_id_desc_descending as Hs.
  rewrite Heq, fmap_app in Hs.
  apply (StronglySorted_app_1_elem_of _ _ _ id r.1) in Hs; [done..|].
  by apply list_elem_of_fmap_2.
Qed.
End page.

Lemma candidates_keys cursor db : NoDup (candidates cursor db).*1.
Proof.
  unfold candidates. destruct (truthy cursor).
  - apply NoDup_fst_filter, NoDup_fst_map_to_list.
  - apply NoDup_fst_map_to_list.
Qed.

Lemma candidates_elem cursor db r :
  cursor ≠ Some 0 →
  r ∈ candidates cursor db ↔
  posts db !! r.1 = Some r.2 ∧ ∀ c, cursor = Some c → r.1 < c.
Proof.
  intros Hc. unfold candidates. destruct cursor as [c|]; cbn.
  - destruct (Z.eqb_spec c 0) as [->|_]; [done|]. cbn.
    rewrite list_elem_of_filter, elem_of_map_to_list'. split.
    + intros [? ?]. split; [done|]. by intros ? [= <-].
    + intros [? H]. split; [by apply H|done].
  - rewrite elem_of_map_to_list'. split; [|by intros [? _]].
    intros ?. split; [done|]. by intros ? [=].
Qed.

Lemma candidates_eligible cursor db id :
  cursor ≠ Some 0 →
  eligible db cursor id ↔ ∃ r, (id, r) ∈ candidates cursor db.
Proof.
  intros Hc. unfold eligible. split.
  - intros [[r Hr] Hlt]. exists r. by apply candidates_elem.
  - intros [r Hr]. apply candidates_elem in Hr as [Hr Hlt]; [|done]. eauto.
Qed.

Lemma feed_ids_of_rows db (rows : list (Z * post_row)) :
  feed_id <$> (item_of db <$> rows) = rows.*1.
Proof. by rewrite <- list_fmap_compose. Qed.

(** ** The feed *)

Lemma int64_small n : -50 ≤ n ≤ 1000000000000000 → int64 n.
Proof. unfold int64. lia. Qed.

(** The page [feed_rows] selects, for a cursor the code takes as one:
    absent, or not 0. *)
Lemma feed_page (db : database) (cursor : option Z) (limit : Z) :
  cursor ≠ Some 0 →
  let items := item_of db <$> feed_rows cursor limit db in
  descending (feed_id <$> items) ∧
  (∀ it, it ∈ items →
     eligible db cursor (feed_id it) ∧
     posts db !! feed_id it = Some {| row_text := feed_text it; row_ts := feed_ts it |}) ∧
  (∀ id id', id ∈ feed_id <$> items → eligible db cursor id' →
     id' ∉ feed_id <$> items → id' < id) ∧
  (0 ≤ limit →
     Z.of_nat (length items) ≤ limit ∧
     (Z.of_nat (length items) < limit →
      ∀ id, eligible db cursor id → id ∈ feed_id <$> items)) ∧
  (limit < 0 → ∀ id, eligible db cursor id → id ∈ feed_id <$> items).
Proof.
  intros Hc. cbv zeta.
  rewrite feed_ids_of_rows, length_fmap. unfold feed_rows.
  pose proof (candidates_keys cursor db) as Hkeys.
  assert (Hall : ∀ id, eligible db cursor id →
            id ∉ (sql_limit limit (order_by_id_desc (candidates cursor db))).*1 →
            0 ≤ limit ∧
            length (sql_limit limit (order_by_id_desc (candidates cursor db)))
              = Z.to_nat limit ∧
            ∀ id', id' ∈ (sql_limit limit (order_by_id_desc (candidates cursor db))).*1 →
                   id < id').
  { intros id Hid Hout. apply candidates_eligible in Hid as [r Hr]; [|done].
    by apply (page_rest _ limit Hkeys (id, r)). }
  split_and!.
  - by apply page_descending.
  - intros it Hit. apply list_elem_of_fmap in Hit as (r & -> & Hr).
    apply page_elem in Hr; [|done]. apply candidates_elem in Hr as [Hr Hlt]; [|done].
    split; [split; eauto|]. destruct r as [id [text ts]]. exact Hr.
  - intros id id' Hid Hid' Hout.
    destruct (Hall id' Hid' Hout) as (_ & _ & Hlt). by apply Hlt.
  - intros Hn. split; [by apply sql_limit_length|].
    intros Hshort id Hid.
    destruct (decide (id ∈ (sql_limit limit (order_by_id_desc (candidates cursor db))).*1))
      as [|Hout]; [done|].
    destruct (Hall id Hid Hout) as (_ & Hlen & _). lia.
  - intros Hn id Hid.
    destruct (decide (id ∈ (sql_limit limit (order_by_id_desc (candidates cursor db))).*1))
      as [|Hout]; [done|].
    destruct (Hall id Hid Hout) as (? & _). lia.
Qed.

(** C1, as amended: for every store, every limit and every cursor that is
    absent or non-zero, all inside the 64-bit range, [get_feed] returns
    (and leaves the store as it is) the rows that are eligible, that is
    below the cursor when there is one, newest first: the ids of the page
    strictly descend, every item is an eligible row with its text and ts,
    every eligible row that is left out is older than every item of the
    page, a limit [0 <= limit] bounds the page length and a page shorter
    than the limit holds every eligible row, and a negative limit leaves
    out nothing.  A limit or a cursor outside the range is not bound:
    [get_feed] raises [OverflowError]. *)
Theorem get_feed_newest_first (db : database) (cursor : option Z) (limit : Z) :
  cursor ≠ Some 0 →
  (bindable cursor limit →
   ∃ items,
    get_feed cursor limit db = (Return items, db) ∧
    descending (feed_id <$> items) ∧
    (∀ it, it ∈ items →
       eligible db cursor (feed_id it) ∧
       posts db !! feed_id it = Some {| row_text := feed_text it; row_ts := feed_ts it |}) ∧
    (∀ id id', id ∈ feed_id <$> items → eligible db cursor id' →
       id' ∉ feed_id <$> items → id' < id) ∧
    (0 ≤ limit →
       Z.of_nat (length items) ≤ limit ∧
       (Z.of_nat (length items) < limit →
        ∀ id, eligible db cursor id → id ∈ feed_id <$> items)) ∧
    (limit < 0 → ∀ id, eligible db cursor id → id ∈ feed_id <$> items)) ∧
  (¬ bindable cursor limit → get_feed cursor limit db = (Raise OverflowError, db)).
Proof.
  intros Hc. split.
  - intros Hb. exists (item_of db <$> feed_rows cursor limit db).
    split; [by apply get_feed_eq|]. by apply feed_page.
  - apply get_feed_overflow.
Qed.

(** Scenario of the specification: posts 100, 200 and 300. *)
Example feed_first_page : page_ids (get_feed None 2 three_posts) = [300; 200].
Proof. vm_compute. reflexivity. Qed.

Example feed_second_page : page_ids (get_feed (Some 200) 2 three_posts) = [100].
Proof. vm_compute. reflexivity. Qed.

Lemma get_feed_newest_first_witness :
  Some 200 ≠ Some 0 ∧
  ∃ items, get_feed (Some 200) 2 three_posts = (Return items, three_posts) ∧
           descending (feed_id <$> items).
Proof.
  split; [discriminate|].
  destruct (get_feed_newest_first three_posts (Some 200) 2) as [H _];
    [discriminate|].
  destruct H as (items & H1 & H2 & _).
  - split; [apply int64_small; cbn; lia|]. intros _. apply int64_small. cbn. lia.
  - exists items. split; assumption.
Defined.

(** C1 as stated fails: a cursor that is present and equal to 0 does not
    restrict the page to ids below 0; a limit of -1 is no limit, the page
    holds all three posts; and a limit of 2^63 is not bound at all, the
    call raises [OverflowError] and returns no page. *)
Lemma get_feed_cursor_zero_negative_limit :
  (∃ id, id ∈ page_ids (get_feed (Some 0) 2 three_posts) ∧ ¬ id < 0) ∧
  page_ids (get_feed None (-1) three_posts) = [300; 200; 100] ∧
  get_feed None 9223372036854775808 three_posts = (Raise OverflowError, three_posts).
Proof.
  split_and!.
  - exists 300. split; [|lia].
    replace (page_ids (get_feed (Some 0) 2 three_posts)) with [300; 200]
      by (vm_compute; reflexivity).
    apply list_elem_of_here.
  - vm_compute. reflexivity.
  - vm_compute. reflexivity.
Qed.

(** C10: a cursor equal to 0 is treated as no cursor.  [get_feed] with
    cursor 0 does what it does without a cursor, and for a limit inside
    the 64-bit range that is a page of the newest posts of the whole
    table, not of the posts below 0: the ids strictly descend, every item
    is a stored post, every post left out is older than every item, a
    limit [0 <= limit] bounds the page and a shorter page holds every
    post, a negative limit leaves out nothing; so the page is not empty
    when the table holds a post and the limit is not 0. *)
Theorem get_feed_cursor_zero (db : database) (limit : Z) :
  get_feed (Some 0) limit db = get_feed None limit db ∧
  (int64 limit →
   ∃ items,
    get_feed (Some 0) limit db = (Return items, db) ∧
    descending (feed_id <$> items) ∧
    (∀ it, it ∈ items →
       posts db !! feed_id it = Some {| row_text := feed_text it; row_ts := feed_ts it |}) ∧
    (∀ id id', id ∈ feed_id <$> items → is_Some (posts db !! id') →
       id' ∉ feed_id <$> items → id' < id) ∧
    (0 ≤ limit →
       Z.of_nat (length items) ≤ limit ∧
       (Z.of_nat (length items) < limit →
        ∀ id, is_Some (posts db !! id) → id ∈ feed_id <$> items)) ∧
    (limit < 0 → ∀ id, is_Some (posts db !! id) → id ∈ feed_id <$> items) ∧
    (limit ≠ 0 → ∀ id, is_Some (posts db !! id) → items ≠ [])).
Proof.
  split; [reflexivity|]. intros Hl.
  change (get_feed (Some 0) limit db) with (get_feed None limit db).
  assert (Hel : ∀ id, is_Some (posts db !! id) → eligible db None id).
  { intros id Hid. split; [done|]. by intros ? [=]. }
  destruct (feed_page db None limit) as (Hd & Hin & Hnew & Hpos & Hneg); [done|].
  cbv zeta in *. exists (item_of db <$> feed_rows None limit db).
  split; [apply get_feed_eq; by split|]. split_and!.
  - exact Hd.
  - intros it Hit. by apply Hin.
  - intros id id' Hid Hid'. apply Hnew; [done|by apply Hel].
  - intros Hn. destruct (Hpos Hn) as [Hlen Hshort]. split; [done|].
    intros Hlt id Hid. by apply Hshort, Hel.
  - intros Hn id Hid. by apply Hneg, Hel.
  - intros Hn id Hid Hnil. rewrite Hnil in *. cbn in *.
    destruct (Z.lt_total limit 0) as [Hlt|[?|Hgt]]; [|done|].
    + specialize (Hneg Hlt id (Hel id Hid)). by apply elem_of_nil in Hneg.
    + destruct Hpos as [_ Hshort]; [lia|].
      specialize (Hshort Hgt id (Hel id Hid)). by apply elem_of_nil in Hshort.
Qed.

Example get_feed_cursor_zero_page :
  page_ids (get_feed (Some 0) 2 three_posts) = [300; 200].
Proof. vm_compute. reflexivity. Qed.

(** [GET /feed] with a limit that is not negative answers with at most 50
    items. *)
Lemma api_feed_at_most_50 (cursor : option Z) (limit : option Z) (db : database) :
  0 ≤ default 20 limit →
  (∀ c, cursor = Some c → int64 c) →
  ∃ items, api_feed cursor limit db = (Ok200 items, db) ∧ (length items ≤ 50)%nat.
Proof.
  intros Hn Hc. unfold api_feed. rewrite get_feed_eq. 2:{
    split; [unfold int64; lia|]. destruct cursor; [|done]. intros _. by apply Hc. }
  cbn [respond].
  eexists. split; [reflexivity|]. rewrite length_fmap. unfold feed_rows.
  pose proof (sql_limit_length (Z.min (default 20 limit) 50)
                (order_by_id_desc (candidates cursor db))). lia.
Qed.

(** C2: [GET /feed] hands [min(limit, 50)] to [get_feed], for every limit;
    with [limit = -1] and a store of 51 posts the answer has 51 items, one
    more than the 50 the endpoint promises. *)
Theorem api_feed_negative_limit :
  (∀ cursor limit db,
     api_feed cursor (Some limit) db = respond (get_feed cursor (Z.min limit 50) db)) ∧
  ∃ items, api_feed None (Some (-1)) (many_posts 51) = (Ok200 items, many_posts 51) ∧
           length items = 51%nat.
Proof.
  split; [reflexivity|].
  unfold api_feed. rewrite get_feed_eq by (split; [apply int64_small; cbn; lia|done]).
  cbn [respond].
  eexists. split; [reflexivity|]. rewrite length_fmap.
  vm_compute. reflexivity.
Qed.

(** ** Reactions *)

Lemma database_eq (db : database) :
  {| posts := posts db; reactions := reactions db |} = db.
Proof. by destruct db. Qed.

(** C4: [inc_reaction] raises [ValueError] exactly when the kind is none
    of support, hug and sad, and for a post id inside the 64-bit range it
    raises nothing else; when the kind is invalid the store is left as it
    was, and [POST /posts/{id}/react] answers 400. *)
Theorem inc_reaction_invalid_kind (db : database) (post_id : Z) (kind : string) :
  ((inc_reaction post_id kind db).1 = Raise (ValueError "bad reaction")
   ↔ kind ∉ REACTIONS) ∧
  (int64 post_id →
   ((∃ e, (inc_reaction post_id kind db).1 = Raise e) ↔ kind ∉ REACTIONS)) ∧
  (kind ∉ REACTIONS →
     inc_reaction post_id kind db = (Raise (ValueError "bad reaction"), db) ∧
     api_react post_id kind db = (HTTPException 400 "bad reaction", db)).
Proof.
  split_and!.
  - split.
    + intros He Hin. destruct (decide (int64 post_id)).
      * by rewrite inc_reaction_valid in He.
      * by rewrite inc_reaction_overflow in He.
    + intros Hout. by rewrite inc_reaction_invalid.
  - intros Hid. split.
    + intros [e He] Hin. by rewrite inc_reaction_valid in He.
    + intros Hout. rewrite inc_reaction_invalid by done. eauto.
  - intros Hout. unfold api_react. by rewrite inc_reaction_invalid.
Qed.

Example inc_reaction_love :
  inc_reaction 100 "love" three_posts = (Raise (ValueError "bad reaction"), three_posts).
Proof.
  apply inc_reaction_invalid. apply (bool_decide_unpack _). by vm_compute.
Qed.

(** C5, as amended: for a valid kind and a post id inside the 64-bit
    range with no [(post_id, kind)] row, [inc_reaction] returns without an
    exception and the store is the one it started from: no row is created
    and none is changed; [POST /posts/{id}/react] answers [{ok: true}].
    A post id outside the range is not bound: [inc_reaction] raises
    [OverflowError], which the endpoint does not handle, and the store is
    again the one it started from. *)
Theorem inc_reaction_missing_row (db : database) (post_id : Z) (kind : string) :
  kind ∈ REACTIONS →
  reactions db !! (post_id, kind) = None →
  (int64 post_id →
   inc_reaction post_id kind db = (Return tt, db) ∧
   api_react post_id kind db = (Ok200 {| ack_ok := true |}, db)) ∧
  (¬ int64 post_id →
   inc_reaction post_id kind db = (Raise OverflowError, db) ∧
   api_react post_id kind db = (Unhandled OverflowError, db)).
Proof.
  intros Hkind Hnone. split; intros Hid.
  - assert (inc_reaction post_id kind db = (Return tt, db)) as Heq.
    { rewrite inc_reaction_valid by done.
      rewrite alter_id' by done. by rewrite database_eq. }
    split; [done|]. unfold api_react. by rewrite Heq.
  - rewrite inc_reaction_overflow by done. split; [done|].
    unfold api_react. by rewrite inc_reaction_overflow.
Qed.

Lemma inc_reaction_missing_row_witness :
  api_react 999 "hug" three_posts = (Ok200 {| ack_ok := true |}, three_posts).
Proof.
  destruct (inc_reaction_missing_row three_posts 999 "hug") as [H _].
  - apply (bool_decide_unpack _). vm_compute. exact I.
  - vm_compute. reflexivity.
  - apply H. unfold int64. lia.
Defined.

(** C5 as stated fails: the kind is valid and no row exists for the post
    id 2^63, yet the call raises and the endpoint does not answer with
    success. *)
Lemma inc_reaction_unbound_id :
  "hug" ∈ REACTIONS ∧
  reactions three_posts !! (9223372036854775808, "hug") = None ∧
  inc_reaction 9223372036854775808 "hug" three_posts
  = (Raise OverflowError, three_posts) ∧
  api_react 9223372036854775808 "hug" three_posts
  = (Unhandled OverflowError, three_posts).
Proof.
  split_and!.
  - apply (bool_decide_unpack _). vm_compute. exact I.
  - vm_compute. reflexivity.
  - vm_compute. reflexivity.
  - vm_compute. reflexivity.
Qed.

(** C6: from a tally at 0, three [inc_reaction] calls for a valid kind
    all return, leave that tally at 3, and leave every other row of the
    reactions table and the whole posts table as they were.  The id of a
    row that SQLite stores is inside the 64-bit range. *)
Theorem inc_reaction_three_times (db : database) (post_id : Z) (kind : string) :
  kind ∈ REACTIONS →
  int64 post_id →
  reactions db !! (post_id, kind) = Some 0 →
  ∃ db1 db2 db3,
    inc_reaction post_id kind db = (Return tt, db1) ∧
    inc_reaction post_id kind db1 = (Return tt, db2) ∧
    inc_reaction post_id kind db2 = (Return tt, db3) ∧
    reactions db3 !! (post_id, kind) = Some 3 ∧
    (∀ k, k ≠ (post_id, kind) → reactions db3 !! k = reactions db !! k) ∧
    posts db3 = posts db.
Proof.
  intros Hkind Hid Hzero. do 3 eexists.
  split_and!; try (by apply inc_reaction_valid); cbn [posts reactions].
  - rewrite !lookup_alter_eq, Hzero. reflexivity.
  - intros k Hk. by rewrite !lookup_alter_ne.
  - reflexivity.
Qed.

Lemma inc_reaction_three_times_witness :
  ∃ db3, (∀ k, k ≠ (200, "sad") → reactions db3 !! k = reactions three_posts !! k) ∧
         reactions db3 !! (200, "sad") = Some 3.
Proof.
  destruct (inc_reaction_three_times three_posts 200 "sad")
    as (db1 & db2 & db3 & _ & _ & _ & H3 & Hother & _).
  - apply (bool_decide_unpack _). vm_compute. exact I.
  - unfold int64. lia.
  - vm_compute. reflexivity.
  - exists db3. split; assumption.
Defined.

(** ** Tally rows *)

Lemma tally_rows_elem db pid t n :
  (t, n) ∈ tally_rows db pid ↔ reactions db !! (pid, t) = Some n.
Proof.
  unfold tally_rows. rewrite list_elem_of_omap. split.
  - intros ([[p u] m] & Hin & Hf). cbn in Hf.
    case_decide as Hp; [|done]. injection Hf as <- <-. subst p.
    by apply elem_of_map_to_list in Hin.
  - intros Hl. exists ((pid, t), n). split; [by apply elem_of_map_to_list|].
    cbn. by rewrite decide_True.
Qed.

Lemma tally_rows_keys db pid : NoDup (tally_rows db pid).*1.
Proof.
  unfold tally_rows.
  pose proof (NoDup_fst_map_to_list (reactions db)) as Hnd.
  induction (map_to_list (reactions db)) as [|[[p u] m] l IH]; [constructor|].
  rewrite fmap_cons, NoDup_cons in Hnd. destruct Hnd as [Hhd Hnd].
  cbn. case_decide as Hp; [|by apply IH].
  cbn. constructor; [|by apply IH]. subst p.
  intros Hin. apply Hhd.
  apply list_elem_of_fmap in Hin as ([u' m'] & Hu & Hin). cbn in Hu. subst u'.
  apply list_elem_of_omap in Hin as ([[p' u'] m''] & Hin & Hf). cbn in Hf.
  case_decide as Hp'; [|done]. injection Hf as -> ->. subst p'.
  by apply (list_elem_of_fmap_2 fst) in Hin.
Qed.

Lemma tally_rows_kinds db pid t :
  t ∈ (tally_rows db pid).*1 ↔ is_Some (reactions db !! (pid, t)).
Proof.
  rewrite list_elem_of_fmap. split.
  - intros ([u n] & -> & Hin). apply tally_rows_elem in Hin. eauto.
  - intros [n Hn]. exists (t, n). split; [done|]. by apply tally_rows_elem.
Qed.

Lemma REACTIONS_NoDup : NoDup REACTIONS.
Proof. apply (bool_decide_unpack _). by vm_compute. Qed.

Lemma tallies_match_complete db : tallies_match_posts db → tallies_complete db.
Proof.
  intros Hm pid Hpid. apply NoDup_Permutation.
  - apply tally_rows_keys.
  - apply REACTIONS_NoDup.
  - intros t. rewrite tally_rows_kinds. specialize (Hm pid t). tauto.
Qed.

Lemma tallies_match_empty : tallies_match_posts empty_db.
Proof.
  intros pid t. cbn. rewrite !lookup_empty. split.
  - by intros [? ?].
  - by intros [[? ?] _].
Qed.

Lemma tallies_match_add_post t_pid t_ts text db :
  tallies_match_posts db → tallies_match_posts (add_post t_pid t_ts text db).2.
Proof.
  intros Hm. rewrite add_post_eq. cbn zeta.
  destruct (posts db !! py_int (t_pid * 1000)%Q) eqn:Hfree; [done|].
  intros p t. cbn [snd posts reactions].
  rewrite seed_rows_lookup. cbn [fst snd].
  rewrite lookup_insert. specialize (Hm p t).
  destruct (reactions db !! (p, t)) as [n|] eqn:Hr.
  - assert (is_Some (Some n)) as Hs by eauto. apply Hm in Hs as [Hp Ht].
    split; [|by eauto]. intros _. split; [|done]. by case_decide.
  - case_decide as Hd.
    + destruct Hd as [-> Ht]. rewrite decide_True by done. split; eauto.
    + split; [by intros [? ?]|]. intros [Hp Ht]. exfalso.
      case_decide as Hpid.
      * subst p. by apply Hd.
      * assert (is_Some (None : option Z)) as [? ?]; [|done]. by apply Hm.
Qed.

Lemma tallies_match_inc_reaction post_id rtype db :
  tallies_match_posts db → tallies_match_posts (inc_reaction post_id rtype db).2.
Proof.
  intros Hm. rewrite inc_reaction_snd. case_bool_decide; [|done].
  intros p t. cbn [posts reactions].
  specialize (Hm p t). rewrite <- Hm, lookup_alter.
  case_decide as Heq; [|done]. rewrite fmap_is_Some. by rewrite Heq.
Qed.

Lemma tallies_match_step db r :
  tallies_match_posts db → tallies_match_posts (step db r).
Proof.
  intros Hm. destruct r as [|t_pid t_ts text|cursor limit|post_id rtype]; cbn [step].
  - done.
  - by apply tallies_match_add_post.
  - by rewrite get_feed_snd.
  - by apply tallies_match_inc_reaction.
Qed.

Lemma tallies_match_run rs db :
  tallies_match_posts db → tallies_match_posts (run rs db).
Proof.
  revert db. induction rs as [|r rs IH]; intros db Hm; [done|].
  apply IH. by apply tallies_match_step.
Qed.

Lemma add_post_fresh_tallies t_pid t_ts text db :
  tallies_match_posts db →
  posts db !! py_int (t_pid * 1000)%Q = None →
  tally_rows (add_post t_pid t_ts text db).2 (py_int (t_pid * 1000)%Q)
    ≡ₚ (λ t, (t, 0)) <$> REACTIONS.
Proof.
  intros Hm Hfree. rewrite add_post_eq. cbn zeta. rewrite Hfree. cbn [snd].
  set (pid := py_int (t_pid * 1000)%Q) in *.
  apply NoDup_Permutation.
  - apply (NoDup_fmap_1 fst), tally_rows_keys.
  - apply (bool_decide_unpack _). by vm_compute.
  - intros [t n]. rewrite tally_rows_elem. cbn [reactions].
    rewrite seed_rows_lookup. cbn [fst snd].
    assert (reactions db !! (pid, t) = None) as ->.
    { apply eq_None_not_Some. intros Hs. apply Hm in Hs as [[? Hp] _].
      congruence. }
    rewrite list_elem_of_fmap. case_decide as Hd.
    + destruct Hd as [_ Ht]. split.
      * intros [= <-]. eauto.
      * by intros (u & [= -> ->] & _).
    + split; [done|]. intros (u & [= -> ->] & Hu). exfalso. by apply Hd.
Qed.

(** C3, as amended: in every state the store reaches from the empty
    database, by any history of [init_db], [add_post], [get_feed] and
    [inc_reaction] calls, every existing post has one tally row for each of
    support, hug and sad and no other, and the next operation keeps it so.
    When the id taken from the clock is free, [add_post] returns it and has
    inserted the post row and the three rows of the new id at count 0,
    touching no row of another post; the four rows are pending together
    and none is durable before the one commit.  When the id is taken,
    [add_post] raises [IntegrityError] and has inserted nothing. *)
Theorem add_post_seeds_tallies (rs : list request) (t_pid t_ts : Q) (text : string) :
  let db := run rs empty_db in
  let pid := py_int (t_pid * 1000)%Q in
  tallies_complete db ∧
  (∀ r, tallies_complete (step db r)) ∧
  (posts db !! pid = None →
   ∃ db',
     add_post t_pid t_ts text db = (Return pid, db') ∧
     posts db' = <[pid := {| row_text := text; row_ts := py_int t_ts |}]> (posts db) ∧
     tally_rows db' pid ≡ₚ (λ t, (t, 0)) <$> REACTIONS ∧
     (∀ k, k.1 ≠ pid → reactions db' !! k = reactions db !! k) ∧
     (insert_post pid text (py_int t_ts);; seed_reactions pid REACTIONS)
       {| durable := db; pending := db |}
     = (Return tt, {| durable := db; pending := db' |})) ∧
  (is_Some (posts db !! pid) →
   add_post t_pid t_ts text db = (Raise IntegrityError, db)).
Proof.
  intros db pid.
  assert (tallies_match_posts db) as Hm
    by apply tallies_match_run, tallies_match_empty.
  split; [by apply tallies_match_complete|].
  split; [intros r; by apply tallies_match_complete, tallies_match_step|].
  split; [|apply add_post_taken].
  intros Hfree.
  pose proof (add_post_fresh_tallies t_pid t_ts text db Hm Hfree) as Hfresh.
  rewrite add_post_eq in *. cbn zeta in *. fold pid in Hfresh |- *.
  rewrite Hfree in *. eexists. split; [reflexivity|].
  split_and!; [done|by apply Hfresh| |].
  - intros k Hk. cbn [reactions]. by apply seed_rows_other.
  - unfold mbind, sql_bind, insert_post. cbn [pending]. rewrite Hfree.
    unfold on_pending. by rewrite seed_reactions_eq.
Qed.

(** C3 as stated fails where the id is taken: [add_post] inserts no post
    row and seeds nothing, the store is the one it started from. *)
Lemma add_post_taken_inserts_nothing :
  let db := run [AddPost (1 # 10) (1 # 10) "a"] empty_db in
  posts db !! 100 = Some {| row_text := "a"; row_ts := 0 |} ∧
  add_post (1 # 10) (1 # 10) "b" db = (Raise IntegrityError, db).
Proof. cbv zeta. split; vm_compute; reflexivity. Qed.

Example add_post_first :
  ∃ db', add_post (1 # 10) (1 # 10) "a" empty_db = (Return 100, db') ∧
         tally_rows db' 100 ≡ₚ [("support", 0); ("hug", 0); ("sad", 0)].
Proof.
  destruct (add_post_free (1 # 10) (1 # 10) "a" empty_db) as (db' & Heq & _);
    [reflexivity|].
  exists db'. split; [exact Heq|].
  replace db' with (add_post (1 # 10) (1 # 10) "a" empty_db).2 by (by rewrite Heq).
  apply (add_post_fresh_tallies (1 # 10) (1 # 10) "a" empty_db).
  - apply tallies_match_empty.
  - reflexivity.
Qed.

(** *** The reactions attached to a feed item *)

Lemma foldl_insert_lookup (l : list (string * Z)) (d : gmap string Z) t n :
  NoDup l.*1 →
  (foldl (λ d' tc, <[tc.1 := tc.2]> d') d l) !! t = Some n ↔
  (t, n) ∈ l ∨ ((∀ m, (t, m) ∉ l) ∧ d !! t = Some n).
Proof.
  revert d. induction l as [|[u m] l IH]; intros d Hnd.
  - cbn. split; [intros ?; right; split; [intros ?; apply not_elem_of_nil|done]|].
    intros [H|[_ H]]; [by apply elem_of_nil in H|done].
  - rewrite fmap_cons, NoDup_cons in Hnd. destruct Hnd as [Hu Hnd]. cbn in Hu.
    cbn [foldl fst snd]. rewrite IH by done. rewrite lookup_insert.
    case_decide as Heq.
    + subst u. split.
      * intros [Hin|[_ [= ->]]]; [|left; apply list_elem_of_here].
        exfalso. apply Hu. by apply (list_elem_of_fmap_2 fst) in Hin.
      * intros [Hin|[Hout _]].
        -- apply elem_of_cons in Hin as [[= ->]|Hin]; [|by left].
           right. split; [|done]. intros m' Hm'.
           apply Hu. by apply (list_elem_of_fmap_2 fst) in Hm'.
        -- exfalso. apply (Hout m), list_elem_of_here.
    + split.
      * intros [Hin|[Hout Hd]]; [left; by apply list_elem_of_further|].
        right. split; [|done]. intros m' Hm'.
        apply elem_of_cons in Hm' as [[= -> ->]|Hm']; [done|by apply (Hout m')].
      * intros [Hin|[Hout Hd]].
        -- apply elem_of_cons in Hin as [[= -> ->]|Hin]; [done|by left].
        -- right. split; [|done]. intros m' Hm'.
           apply (Hout m'). by apply list_elem_of_further.
Qed.

Lemma dict_of_lookup (l : list (string * Z)) t n :
  NoDup l.*1 → dict_of l !! t = Some n ↔ (t, n) ∈ l.
Proof.
  intros Hnd. unfold dict_of. rewrite foldl_insert_lookup by done.
  rewrite lookup_empty. split; [by intros [?|[_ ?]]|by left].
Qed.

Lemma item_of_reactions db r t :
  feed_reactions (item_of db r) !! t = reactions db !! (r.1, t).
Proof.
  apply option_eq. intros n. cbn [item_of feed_reactions].
  rewrite dict_of_lookup by apply tally_rows_keys. apply tally_rows_elem.
Qed.

Lemma candidates_posts cursor db r :
  r ∈ candidates cursor db → posts db !! r.1 = Some r.2.
Proof.
  unfold candidates. destruct (truthy cursor).
  - rewrite list_elem_of_filter, elem_of_map_to_list'. by intros [_ ?].
  - by rewrite elem_of_map_to_list'.
Qed.

(** X2: every item of a feed page carries the tallies of its post, as the
    reactions table has them: in a store reached from the empty database,
    the kinds support, hug and sad and no other. *)
Lemma get_feed_reactions (rs : list request) cursor limit items db' it t :
  get_feed cursor limit (run rs empty_db) = (Return items, db') →
  it ∈ items →
  feed_reactions it !! t = reactions (run rs empty_db) !! (feed_id it, t) ∧
  (is_Some (feed_reactions it !! t) ↔ t ∈ REACTIONS).
Proof.
  intros Hget Hit. apply get_feed_returns in Hget as (_ & -> & _).
  apply list_elem_of_fmap in Hit as (r & -> & Hr).
  rewrite item_of_reactions. split; [done|].
  pose proof (tallies_match_run rs empty_db tallies_match_empty r.1 t) as Hm.
  rewrite Hm. unfold feed_rows in Hr.
  apply page_elem in Hr; [|apply candidates_keys].
  apply candidates_posts in Hr. split; [tauto|]. intros Ht. split; [eauto|done].
Qed.

(** After the first post, the feed shows it with its three tallies at 0. *)
Example feed_after_first_post :
  (get_feed None 20 (add_post (1 # 10) (1 # 10) "a" empty_db).2).1
  = Return [ {| feed_id := 100; feed_text := "a"; feed_ts := 0;
                feed_reactions := <["support" := 0]> (<["hug" := 0]> {["sad" := 0]}) |} ].
Proof. vm_compute. reflexivity. Qed.

(** ** Creating posts *)

Lemma api_bot_post_empty secret t_pid t_ts data_text db :
  strip data_text = "" →
  api_bot_post secret t_pid t_ts data_text (Some secret) db
  = (HTTPException 400 "empty", db).
Proof.
  intros Hempty. unfold api_bot_post.
  rewrite bool_decide_eq_false_2 by (by intros ?).
  by rewrite bool_decide_eq_true_2.
Qed.

Section ingest.
Variable BOT_SECRET : string.

(** C7, as amended: [POST /bot/post] answers 401 and leaves the store
    as it is when the header is missing or differs from the secret; with
    the secret it answers 400, again without touching the store, when the
    stripped text is empty; otherwise, when no post holds the id taken
    from the clock, it stores a post whose text is the stripped input and
    answers with that id; when the id is taken, the insert fails, the
    exception is not handled and nothing is stored. *)
Theorem api_bot_post_cases (t_pid t_ts : Q) (data_text : string)
    (x_bot_secret : option string) (db : database) :
  let pid := py_int (t_pid * 1000)%Q in
  let post := api_bot_post BOT_SECRET t_pid t_ts data_text x_bot_secret db in
  (x_bot_secret ≠ Some BOT_SECRET → post = (HTTPException 401 "bad secret", db)) ∧
  (x_bot_secret = Some BOT_SECRET → strip data_text = "" →
     post = (HTTPException 400 "empty", db)) ∧
  (x_bot_secret = Some BOT_SECRET → strip data_text ≠ "" →
     posts db !! pid = None →
     ∃ db', post = (Ok200 {| created_ok := true; created_id := pid |}, db') ∧
            posts db' = <[pid := {| row_text := strip data_text;
                                    row_ts := py_int t_ts |}]> (posts db)) ∧
  (x_bot_secret = Some BOT_SECRET → strip data_text ≠ "" →
     is_Some (posts db !! pid) →
     post = (Unhandled IntegrityError, db)).
Proof.
  intros pid post. subst post. unfold api_bot_post. split_and!.
  - intros Hbad. by rewrite bool_decide_eq_true_2.
  - intros -> Hempty. by apply api_bot_post_empty.
  - intros Hok Htext Hfree. rewrite bool_decide_eq_false_2 by (by intros ?).
    rewrite bool_decide_eq_false_2 by done.
    destruct (add_post_free t_pid t_ts (strip data_text) db Hfree)
      as (db' & -> & Hposts & _).
    eauto.
  - intros Hok Htext Htaken. rewrite bool_decide_eq_false_2 by (by intros ?).
    rewrite bool_decide_eq_false_2 by done.
    by rewrite add_post_taken.
Qed.
End ingest.

(** Stripping keeps letters whose encoding ends in the bytes 0x85 or 0xA0
    and removes white space outside ASCII (here U+2003 and U+00A0). *)
Example strip_keeps_letters : strip " ох " = "ох".
Proof. vm_compute. reflexivity. Qed.

Example strip_wide_space :
  strip (utf8 [226; 128; 131] +:+ "hi" +:+ utf8 [194; 160]) = "hi".
Proof. vm_compute. reflexivity. Qed.

Example api_bot_post_wide_blank :
  api_bot_post "s3cret" (1 # 10) (1 # 10) (utf8 [226; 128; 131]) (Some "s3cret") empty_db
  = (HTTPException 400 "empty", empty_db).
Proof. vm_compute. reflexivity. Qed.

Example api_bot_post_no_header :
  api_bot_post "s3cret" (1 # 10) (1 # 10) "  hello  " None empty_db
  = (HTTPException 401 "bad secret", empty_db).
Proof. reflexivity. Qed.

Example api_bot_post_wrong_secret :
  api_bot_post "s3cret" (1 # 10) (1 # 10) "  hello  " (Some "s3cret ") empty_db
  = (HTTPException 401 "bad secret", empty_db).
Proof. reflexivity. Qed.

Example api_bot_post_blank :
  api_bot_post "s3cret" (1 # 10) (1 # 10) "   " (Some "s3cret") empty_db
  = (HTTPException 400 "empty", empty_db).
Proof. reflexivity. Qed.

Example api_bot_post_hello :
  ∃ db', api_bot_post "s3cret" (1 # 10) (1 # 10) "  hello  " (Some "s3cret") empty_db
         = (Ok200 {| created_ok := true; created_id := 100 |}, db') ∧
         posts db' !! 100 = Some {| row_text := "hello"; row_ts := 0 |}.
Proof. eexists. split; [vm_compute; reflexivity|]. vm_compute. reflexivity. Qed.

(** C7 as stated fails where the id is taken: the secret is right and the
    text is not empty, yet no post is created and no id is returned. *)
Lemma api_bot_post_id_taken :
  let db := (add_post (1 # 10) (1 # 10) "a" empty_db).2 in
  "s3cret" = "s3cret" ∧ strip "  hello  " = "hello" ∧
  api_bot_post "s3cret" (1 # 10) (1 # 10) "  hello  " (Some "s3cret") db
  = (Unhandled IntegrityError, db).
Proof. cbv zeta. split_and!; vm_compute; reflexivity. Qed.

(** C8, as amended: [add_post] does not look at its text.  For every text,
    the empty and the blank ones too, it stores the text as given, with the
    three tally rows, whenever the id taken from the clock is free.  Blank
    text is turned away before the store is reached: [POST /bot/post]
    answers 400 and stores nothing. *)
Theorem add_post_accepts_any_text (secret : string) (t_pid t_ts : Q)
    (text : string) (db : database) :
  posts db !! py_int (t_pid * 1000)%Q = None →
  (∃ db', add_post t_pid t_ts text db = (Return (py_int (t_pid * 1000)%Q), db') ∧
          posts db' !! py_int (t_pid * 1000)%Q
            = Some {| row_text := text; row_ts := py_int t_ts |} ∧
          ∀ t, t ∈ REACTIONS → is_Some (reactions db' !! (py_int (t_pid * 1000)%Q, t))) ∧
  (strip text = "" →
     api_bot_post secret t_pid t_ts text (Some secret) db
     = (HTTPException 400 "empty", db)).
Proof.
  intros Hfree. split.
  - destruct (add_post_free t_pid t_ts text db Hfree) as (db' & Heq & Hposts & Hrows).
    exists db'. split_and!; [done| |done]. by rewrite Hposts, lookup_insert_eq.
  - apply api_bot_post_empty.
Qed.

Lemma add_post_accepts_any_text_witness :
  ∃ db', add_post (1 # 10) (1 # 10) "   " empty_db = (Return 100, db') ∧
         posts db' !! 100 = Some {| row_text := "   "; row_ts := 0 |}.
Proof.
  destruct (add_post_accepts_any_text "s3cret" (1 # 10) (1 # 10) "   " empty_db)
    as [(db' & Heq & Hrow & _) _].
  - vm_compute. reflexivity.
  - exists db'. split; assumption.
Defined.

(** C8 as stated fails: the empty text and a blank text are stored. *)
Lemma add_post_empty_text :
  (∃ db', add_post (1 # 10) (1 # 10) "" empty_db = (Return 100, db') ∧
          posts db' !! 100 = Some {| row_text := ""; row_ts := 0 |} ∧
          tally_rows db' 100 ≡ₚ [("support", 0); ("hug", 0); ("sad", 0)]) ∧
  (∃ db', add_post (1 # 10) (1 # 10) "   " empty_db = (Return 100, db') ∧
          strip "   " = "" ∧
          posts db' !! 100 = Some {| row_text := "   "; row_ts := 0 |}).
Proof.
  split.
  - eexists. split; [vm_compute; reflexivity|]. split; [vm_compute; reflexivity|].
    apply (add_post_fresh_tallies (1 # 10) (1 # 10) "" empty_db).
    + apply tallies_match_empty.
    + reflexivity.
  - eexists. split; [vm_compute; reflexivity|]. split; vm_compute; reflexivity.
Qed.

(** ** Ids and the clock *)

Lemma py_int_mono (x y : Q) : (x <= y)%Q → py_int x ≤ py_int y.
Proof.
  intros Hxy. unfold py_int.
  destruct (Qle_bool 0 x) eqn:Hx, (Qle_bool 0 y) eqn:Hy.
  - by apply Qfloor_resp_le.
  - apply Qle_bool_iff in Hx. apply not_true_iff_false in Hy.
    exfalso. apply Hy, Qle_bool_iff. by apply Qle_trans with x.
  - apply Qle_bool_iff in Hy. apply not_true_iff_false in Hx.
    rewrite Qle_bool_iff in Hx. apply Qnot_le_lt, Qlt_le_weak in Hx.
    apply Z.le_trans with 0.
    + change 0 with (Qceiling 0). by apply Qceiling_resp_le.
    + change 0 with (Qfloor 0). by apply Qfloor_resp_le.
  - by apply Qceiling_resp_le.
Qed.

Lemma epoch_ms_mono (t1 t2 : Q) :
  (t1 <= t2)%Q → py_int (t1 * 1000)%Q ≤ py_int (t2 * 1000)%Q.
Proof. intros H. apply py_int_mono. by apply Qmult_le_compat_r. Qed.

Lemma posts_step db r id :
  is_Some (posts (step db r) !! id) →
  is_Some (posts db !! id) ∨ ∃ t, t ∈ readings r ∧ id = py_int (t * 1000)%Q.
Proof.
  destruct r as [|t_pid t_ts text|cursor limit|post_id rtype]; cbn [step readings].
  - auto.
  - rewrite add_post_eq. cbn zeta.
    destruct (posts db !! py_int (t_pid * 1000)%Q) eqn:Hfree; [auto|].
    cbn [snd posts]. rewrite lookup_insert. case_decide as Heq; [|auto].
    intros _. right. exists t_pid. split; [apply list_elem_of_here|done].
  - rewrite get_feed_snd. auto.
  - rewrite inc_reaction_snd. case_bool_decide; auto.
Qed.

Lemma posts_run rs db id :
  is_Some (posts (run rs db) !! id) →
  is_Some (posts db !! id) ∨ ∃ t, t ∈ clock rs ∧ id = py_int (t * 1000)%Q.
Proof.
  revert db. induction rs as [|r rs IH]; intros db; [by left|].
  intros Hid. apply IH in Hid as [Hid|(t & Ht & ->)].
  - apply posts_step in Hid as [Hid|(t & Ht & ->)]; [by left|].
    right. exists t. split; [|done]. unfold clock. rewrite bind_cons.
    apply elem_of_app. by left.
  - right. exists t. split; [|done]. unfold clock. rewrite bind_cons.
    apply elem_of_app. by right.
Qed.

Lemma posts_before_clock rs t_pid t_ts text id :
  Sorted Qle (clock (rs ++ [AddPost t_pid t_ts text])) →
  is_Some (posts (run rs empty_db) !! id) → id ≤ py_int (t_pid * 1000)%Q.
Proof.
  intros Hclock Hid. apply posts_run in Hid as [[? Hid]|(t & Ht & ->)].
  { cbn in Hid. by rewrite lookup_empty in Hid. }
  apply epoch_ms_mono. apply Sorted_StronglySorted in Hclock; [|apply _].
  unfold clock in Hclock. rewrite bind_app in Hclock.
  apply (StronglySorted_app_1_elem_of _ _ _ t t_pid) in Hclock; [done..|].
  cbn. apply list_elem_of_here.
Qed.

(** C9, as amended: under a non-decreasing clock an [add_post] that
    returns gives the millisecond reading of the clock, an id strictly
    larger than the id of every post created before; it returns whenever
    that reading lies strictly above every id in the store.  When a post of
    the same millisecond exists it raises [IntegrityError] instead and
    stores nothing. *)
Theorem add_post_ids_increase (rs : list request) (t_pid t_ts : Q) (text : string) :
  Sorted Qle (clock (rs ++ [AddPost t_pid t_ts text])) →
  let db := run rs empty_db in
  let pid := py_int (t_pid * 1000)%Q in
  match add_post t_pid t_ts text db with
  | (Return pid', db') =>
      pid' = pid ∧ ∀ id, is_Some (posts db !! id) → id < pid'
  | (Raise e, db') =>
      e = IntegrityError ∧ db' = db ∧ is_Some (posts db !! pid)
  end ∧
  ((∀ id, is_Some (posts db !! id) → id < pid) →
   ∃ db', add_post t_pid t_ts text db = (Return pid, db')).
Proof.
  intros Hclock db pid.
  assert (Hle : ∀ id, is_Some (posts db !! id) → id ≤ pid)
    by (intros id; by apply posts_before_clock with t_ts text).
  rewrite add_post_eq. cbn zeta. fold pid.
  destruct (posts db !! pid) as [r|] eqn:Hfree.
  - split; [by eauto|]. intros Hlt. exfalso.
    assert (pid < pid); [apply Hlt; eauto|lia].
  - split; [|by eauto]. split; [done|]. intros id Hid.
    assert (id ≠ pid) by (intros ->; destruct Hid; congruence).
    specialize (Hle id Hid). lia.
Qed.

Lemma add_post_ids_increase_witness :
  ∃ db', add_post (2 # 10) (2 # 10) "b" (run [AddPost (1 # 10) (1 # 10) "a"] empty_db)
         = (Return 200, db').
Proof.
  destruct (add_post_ids_increase [AddPost (1 # 10) (1 # 10) "a"] (2 # 10) (2 # 10) "b")
    as [_ H].
  - cbn. repeat constructor; unfold Qle; cbn; lia.
  - apply H. intros id [r Hr].
    assert (posts (run [AddPost (1 # 10) (1 # 10) "a"] empty_db)
            = {[100 := {| row_text := "a"; row_ts := 0 |}]}) as Hp
      by (vm_compute; reflexivity).
    rewrite Hp in Hr. apply lookup_singleton_Some in Hr as [<- _].
    vm_compute. reflexivity.
Defined.

(** C9 as stated fails: the clock moves on, from 0.1000 s to 0.1003 s,
    and the second [add_post] does not return an id: its millisecond, 100,
    is the one of the first post. *)
Lemma add_post_same_millisecond :
  let first := AddPost (1000 # 10000) (1001 # 10000) "a" in
  let second := AddPost (1002 # 10000) (1003 # 10000) "b" in
  let db := run [first] empty_db in
  Sorted Qle (clock [first; second]) ∧
  Sorted Qlt (clock [first; second]) ∧
  is_Some (posts db !! 100) ∧
  add_post (1002 # 10000) (1003 # 10000) "b" db = (Raise IntegrityError, db).
Proof.
  cbv zeta. split_and!.
  - cbn. repeat constructor; unfold Qle; cbn; lia.
  - cbn. repeat constructor; unfold Qlt; cbn; lia.
  - vm_compute. eauto.
  - vm_compute. reflexivity.
Qed.

(** * Further properties of the store *)

(** ** Reading the feed *)

Lemma feed_rows_keys cursor limit db : NoDup (feed_rows cursor limit db).*1.
Proof.
  unfold feed_rows.
  destruct (sql_limit_prefix limit (order_by_id_desc (candidates cursor db)))
    as (rest & Heq & _).
  assert (NoDup (order_by_id_desc (candidates cursor db)).*1) as Hnd.
  { unfold order_by_id_desc. rewrite merge_sort_Permutation.
    apply candidates_keys. }
  rewrite Heq, fmap_app in Hnd. by apply NoDup_app in Hnd as [? _].
Qed.

(** X1: [get_feed] never changes the store.  When its limit and its
    cursor (if it is not 0) are inside the 64-bit range, zero and negative
    limits too, it returns a page on which no post is twice and every item
    shows a stored post: its text, its ts and the counts of its rows in the
    reactions table.  Otherwise it raises [OverflowError]. *)
Theorem get_feed_read_only (db : database) (cursor : option Z) (limit : Z) :
  (get_feed cursor limit db).2 = db ∧
  (bindable cursor limit →
   ∃ items,
    get_feed cursor limit db = (Return items, db) ∧
    NoDup (feed_id <$> items) ∧
    ∀ it, it ∈ items →
      posts db !! feed_id it
        = Some {| row_text := feed_text it; row_ts := feed_ts it |} ∧
      ∀ t, feed_reactions it !! t = reactions db !! (feed_id it, t)) ∧
  (¬ bindable cursor limit → (get_feed cursor limit db).1 = Raise OverflowError).
Proof.
  split; [apply get_feed_snd|]. split.
  - intros Hb. exists (item_of db <$> feed_rows cursor limit db).
    split; [by apply get_feed_eq|]. split.
    + rewrite feed_ids_of_rows. apply feed_rows_keys.
    + intros it Hit. apply list_elem_of_fmap in Hit as (r & -> & Hr).
      split; [|intros t; apply item_of_reactions].
      unfold feed_rows in Hr. apply page_elem in Hr; [|apply candidates_keys].
      apply candidates_posts in Hr. by destruct r as [id [text ts]].
  - intros Hb. by rewrite get_feed_overflow.
Qed.

Lemma get_feed_reactions_witness :
  let it := item_of three_posts (300, {| row_text := "c"; row_ts := 0 |}) in
  (get_feed None 1 three_posts).1 = Return [it] ∧
  (is_Some (feed_reactions it !! "hug") ↔ "hug" ∈ REACTIONS).
Proof.
  cbv zeta. split; [vm_compute; reflexivity|].
  eapply (get_feed_reactions
            [AddPost (1 # 10) (1 # 10) "a"; AddPost (2 # 10) (2 # 10) "b";
             AddPost (3 # 10) (3 # 10) "c"] None 1 _ three_posts).
  - vm_compute. reflexivity.
  - apply list_elem_of_here.
Defined.

(** X3 (bound of the endpoint): when the limit is absent or not negative
    and the cursor, if there is one, is inside the 64-bit range,
    [GET /feed] answers with a page of at most [min(limit, 50)] items, 20
    by default, and leaves the store as it is. *)
Theorem api_feed_page_bound (cursor limit : option Z) (db : database) :
  0 ≤ default 20 limit →
  (∀ c, cursor = Some c → int64 c) →
  ∃ items, api_feed cursor limit db = (Ok200 items, db) ∧
           Z.of_nat (length items) ≤ Z.min (default 20 limit) 50 ∧
           (limit = None → (length items ≤ 20)%nat).
Proof.
  intros Hn Hc. unfold api_feed. rewrite get_feed_eq. 2:{
    split; [unfold int64; lia|]. destruct cursor; [|done]. intros _. by apply Hc. }
  cbn [respond].
  eexists. split; [reflexivity|]. rewrite length_fmap. unfold feed_rows.
  pose proof (sql_limit_length (Z.min (default 20 limit) 50)
                (order_by_id_desc (candidates cursor db))) as Hlen.
  split; [apply Hlen; lia|]. intros ->. cbn [default] in *. lia.
Qed.

Lemma api_feed_page_bound_witness :
  ∃ items, api_feed None None (many_posts 30) = (Ok200 items, many_posts 30) ∧
           (length items ≤ 20)%nat.
Proof.
  destruct (api_feed_page_bound None None (many_posts 30)) as (items & Heq & _ & H20).
  - cbn. lia.
  - intros c [=].
  - exists items. split; [exact Heq|]. by apply H20.
Defined.

(** ** Reacting *)

Lemma inc_reaction_rows (db : database) (post_id : Z) (rtype : string) :
  let db' := (inc_reaction post_id rtype db).2 in
  posts db' = posts db ∧
  ∀ k, reactions db' !! k =
       if bool_decide (k = (post_id, rtype) ∧ rtype ∈ REACTIONS ∧ int64 post_id)
       then (λ n, n + 1) <$> reactions db !! k
       else reactions db !! k.
Proof.
  cbv zeta. rewrite inc_reaction_snd. case_bool_decide as Hok.
  - cbn [posts reactions]. split; [done|]. intros k.
    rewrite lookup_alter. case_decide as Hk.
    + subst k. rewrite bool_decide_eq_true_2; [done|]. tauto.
    + rewrite bool_decide_eq_false_2; [done|]. intros [-> _]. done.
  - split; [done|]. intros k.
    rewrite bool_decide_eq_false_2; [done|]. tauto.
Qed.

(** X4: whatever the post id and the kind, [inc_reaction] leaves the posts
    table and the set of tally rows as they are, and every row keeps its
    count, apart from the row it is called for, which gains one when the
    kind is valid and the id is inside the 64-bit range, as the id of
    every stored row is. *)
Theorem inc_reaction_frame (db : database) (post_id : Z) (rtype : string) :
  let db' := (inc_reaction post_id rtype db).2 in
  posts db' = posts db ∧
  dom (reactions db') = dom (reactions db) ∧
  ∀ k, reactions db' !! k =
       if bool_decide (k = (post_id, rtype) ∧ rtype ∈ REACTIONS ∧ int64 post_id)
       then (λ n, n + 1) <$> reactions db !! k
       else reactions db !! k.
Proof.
  destruct (inc_reaction_rows db post_id rtype) as [Hposts Hrows].
  cbv zeta in *. split; [done|]. split; [|done].
  apply set_eq. intros k. rewrite !elem_of_dom, Hrows.
  case_bool_decide; [|done]. by rewrite fmap_is_Some.
Qed.

(** X5: reactions commute: two [inc_reaction] calls leave the same store
    in either order, whatever their arguments. *)
Theorem inc_reaction_commute (db : database) (p1 p2 : Z) (k1 k2 : string) :
  (inc_reaction p2 k2 (inc_reaction p1 k1 db).2).2
  = (inc_reaction p1 k1 (inc_reaction p2 k2 db).2).2.
Proof.
  rewrite (inc_reaction_snd p1 k1 db), (inc_reaction_snd p2 k2 db).
  destruct (bool_decide (k1 ∈ REACTIONS ∧ int64 p1)) eqn:E1;
    destruct (bool_decide (k2 ∈ REACTIONS ∧ int64 p2)) eqn:E2;
    rewrite !inc_reaction_snd, ?E1, ?E2; cbn [posts reactions]; try done.
  f_equal. destruct (decide ((p1, k1) = (p2, k2))) as [[= -> ->]|Hne]; [done|].
  by apply alter_alter_ne.
Qed.

Lemma run_cons r rs db : run (r :: rs) db = run rs (step db r).
Proof. reflexivity. Qed.

(** X6: [k] reactions of a valid kind in a row raise an existing tally
    by [k] and change nothing else.  The id of a row that SQLite stores is
    inside the 64-bit range. *)
Theorem inc_reaction_repeat (db : database) (post_id : Z) (kind : string)
    (c : Z) (k : nat) :
  kind ∈ REACTIONS →
  int64 post_id →
  reactions db !! (post_id, kind) = Some c →
  let db' := run (replicate k (IncReaction post_id kind)) db in
  reactions db' !! (post_id, kind) = Some (c + Z.of_nat k) ∧
  (∀ k', k' ≠ (post_id, kind) → reactions db' !! k' = reactions db !! k') ∧
  posts db' = posts db.
Proof.
  intros Hkind Hid. revert db c. induction k as [|k IH]; intros db c Hc; cbv zeta.
  - cbn. rewrite Z.add_0_r. done.
  - cbn [replicate]. rewrite run_cons. cbn [step].
    rewrite inc_reaction_valid by done. cbn [snd].
    destruct (IH {| posts := posts db;
                    reactions := alter (λ n, n + 1) (post_id, kind) (reactions db) |}
                 (c + 1)) as (Hsame & Hother & Hposts).
    { cbn [reactions]. by rewrite lookup_alter_eq, Hc. }
    split_and!.
    + rewrite Hsame. f_equal. lia.
    + intros k' Hk'. rewrite Hother by done. cbn [reactions].
      by rewrite lookup_alter_ne.
    + by rewrite Hposts.
Qed.

Lemma inc_reaction_repeat_witness :
  reactions (run (replicate 5 (IncReaction 300 "support")) three_posts)
    !! (300, "support") = Some 5.
Proof.
  apply (inc_reaction_repeat three_posts 300 "support" 0 5).
  - apply (bool_decide_unpack _). vm_compute. exact I.
  - unfold int64. lia.
  - vm_compute. reflexivity.
Defined.

(** ** What a history keeps *)

Lemma step_keeps db r :
  (∀ id row, posts db !! id = Some row → posts (step db r) !! id = Some row) ∧
  (∀ k n, reactions db !! k = Some n →
          ∃ n', reactions (step db r) !! k = Some n' ∧ n ≤ n').
Proof.
  destruct r as [|t_pid t_ts text|cursor limit|post_id rtype]; cbn [step].
  - split; [done|]. intros k n Hk. exists n. split; [done|lia].
  - rewrite add_post_eq. cbn zeta.
    destruct (posts db !! py_int (t_pid * 1000)%Q) eqn:Hfree; cbn [snd].
    + split; [done|]. intros k n Hk. exists n. split; [done|lia].
    + cbn [posts reactions]. split.
      * intros id row Hid. rewrite lookup_insert_ne; [done|]. congruence.
      * intros k n Hk. exists n. split; [|lia].
        by rewrite seed_rows_lookup, Hk.
  - rewrite get_feed_snd.
    split; [done|]. intros k n Hk. exists n. split; [done|lia].
  - destruct (inc_reaction_rows db post_id rtype) as (Hposts & Hrows).
    cbv zeta in *. split; [by rewrite Hposts|].
    intros k n Hk. rewrite Hrows, Hk. case_bool_decide; cbn.
    + exists (n + 1). split; [done|lia].
    + exists n. split; [done|lia].
Qed.

(** X7: no history deletes or rewrites a post, deletes a tally row or
    lowers its count: every post row of a store is there, unchanged, after
    any further operations, and every tally row is there with a count at
    least as large. *)
Theorem run_keeps (rs : list request) (db : database) :
  (∀ id row, posts db !! id = Some row → posts (run rs db) !! id = Some row) ∧
  (∀ k n, reactions db !! k = Some n →
          ∃ n', reactions (run rs db) !! k = Some n' ∧ n ≤ n').
Proof.
  revert db. induction rs as [|r rs IH]; intros db.
  - split; [done|]. intros k n Hk. exists n. split; [done|lia].
  - rewrite run_cons. destruct (IH (step db r)) as [IHp IHr].
    destruct (step_keeps db r) as [Hp Hr]. split.
    + intros id row Hid. by apply IHp, Hp.
    + intros k n Hk. apply Hr in Hk as (n1 & Hk1 & Hle1).
      apply IHr in Hk1 as (n2 & Hk2 & Hle2). exists n2. split; [done|lia].
Qed.

Lemma step_nonneg db r :
  (∀ k n, reactions db !! k = Some n → 0 ≤ n) →
  ∀ k n, reactions (step db r) !! k = Some n → 0 ≤ n.
Proof.
  intros Hdb k n. destruct r as [|t_pid t_ts text|cursor limit|post_id rtype];
    cbn [step].
  - apply Hdb.
  - rewrite add_post_eq. cbn zeta.
    destruct (posts db !! py_int (t_pid * 1000)%Q); cbn [snd]; [apply Hdb|].
    cbn [reactions]. rewrite seed_rows_lookup.
    destruct (reactions db !! k) as [c|] eqn:Hk.
    + intros [= <-]. by apply (Hdb k).
    + case_decide; [|done]. by intros [= <-].
  - rewrite get_feed_snd. apply Hdb.
  - destruct (inc_reaction_rows db post_id rtype) as (_ & Hrows).
    cbv zeta in Hrows. rewrite Hrows.
    destruct (reactions db !! k) as [c|] eqn:Hk; [|by case_bool_decide].
    specialize (Hdb k c Hk). case_bool_decide; cbn; intros [= <-]; lia.
Qed.

Lemma run_nonneg rs db :
  (∀ k n, reactions db !! k = Some n → 0 ≤ n) →
  ∀ k n, reactions (run rs db) !! k = Some n → 0 ≤ n.
Proof.
  revert db. induction rs as [|r rs IH]; intros db Hdb; [done|].
  rewrite run_cons. by apply IH, step_nonneg.
Qed.

(** X8: in every store reached from the empty database no tally is
    negative. *)
Theorem tallies_nonneg (rs : list request) (k : Z * string) (n : Z) :
  reactions (run rs empty_db) !! k = Some n → 0 ≤ n.
Proof.
  apply run_nonneg. intros k' n'. cbn. by rewrite lookup_empty.
Qed.

Lemma tallies_nonneg_witness :
  0 ≤ 1 ∧
  reactions (run [IncReaction 300 "sad"] three_posts) !! (300, "sad") = Some 1.
Proof.
  assert (reactions (run [IncReaction 300 "sad"] three_posts) !! (300, "sad") = Some 1)
    as H by (vm_compute; reflexivity).
  split; [|exact H].
  exact (tallies_nonneg
           [AddPost (1 # 10) (1 # 10) "a"; AddPost (2 # 10) (2 # 10) "b";
            AddPost (3 # 10) (3 # 10) "c"; IncReaction 300 "sad"]
           (300, "sad") 1 H).
Defined.

(** ** The feed after a write *)

Lemma keys_inj (l : list (Z * post_row)) x y :
  NoDup l.*1 → x ∈ l → y ∈ l → x.1 = y.1 → x = y.
Proof.
  induction l as [|z l IH]; [by intros _ ?%elem_of_nil|].
  rewrite fmap_cons, NoDup_cons. intros [Hz Hnd] Hx Hy Heq.
  apply elem_of_cons in Hx as [->|Hx]; apply elem_of_cons in Hy as [->|Hy].
  - done.
  - exfalso. apply Hz. rewrite Heq. by apply list_elem_of_fmap_2.
  - exfalso. apply Hz. rewrite <- Heq. by apply list_elem_of_fmap_2.
  - by apply IH.
Qed.

Lemma id_desc_sorted_unique (l1 l2 : list (Z * post_row)) :
  NoDup l1.*1 → l1 ≡ₚ l2 →
  StronglySorted id_desc l1 → StronglySorted id_desc l2 → l1 = l2.
Proof.
  intros Hnd Hperm Hs1 Hs2.
  apply (StronglySorted_unique_strong id_desc); [|done..].
  intros x1 x2 Hx1 Hx2 H12 H21. rewrite <- Hperm in Hx2.
  apply (keys_inj l1); [done..|]. unfold id_desc in *. lia.
Qed.

Lemma order_by_id_desc_sorted l : StronglySorted id_desc (order_by_id_desc l).
Proof. apply StronglySorted_merge_sort; apply _. Qed.

Lemma order_by_id_desc_perm (l1 l2 : list (Z * post_row)) :
  NoDup l1.*1 → l1 ≡ₚ l2 → order_by_id_desc l1 = order_by_id_desc l2.
Proof.
  intros Hnd Hperm. apply id_desc_sorted_unique.
  - unfold order_by_id_desc. by rewrite merge_sort_Permutation.
  - unfold order_by_id_desc. by rewrite !merge_sort_Permutation.
  - apply order_by_id_desc_sorted.
  - apply order_by_id_desc_sorted.
Qed.

Lemma add_post_returns t_pid t_ts text db pid db' :
  add_post t_pid t_ts text db = (Return pid, db') →
  pid = py_int (t_pid * 1000)%Q ∧ posts db !! pid = None ∧
  posts db' = <[pid := {| row_text := text; row_ts := py_int t_ts |}]> (posts db) ∧
  reactions db' = seed_rows pid REACTIONS (reactions db).
Proof.
  rewrite add_post_eq. cbn zeta.
  destruct (posts db !! py_int (t_pid * 1000)%Q) eqn:Hfree; [done|].
  by intros [= <- <-].
Qed.

(** X9: a cursor page is stable under inserts: after an [add_post] whose
    id is not below a non-zero cursor, [get_feed] with that cursor returns
    the page it returned before, item by item. *)
Theorem get_feed_stable_under_insert (db db' : database) (c limit : Z)
    (t_pid t_ts : Q) (text : string) (pid : Z) :
  c ≠ 0 →
  add_post t_pid t_ts text db = (Return pid, db') →
  c ≤ pid →
  (get_feed (Some c) limit db').1 = (get_feed (Some c) limit db).1.
Proof.
  intros Hc Hadd Hle.
  apply add_post_returns in Hadd as (_ & Hfree & Hposts & Hrows).
  rewrite !get_feed_cases. case_bool_decide; [|done]. cbn [fst]. f_equal.
  assert (candidates (Some c) db' ≡ₚ candidates (Some c) db) as Hperm.
  { unfold candidates. cbn. destruct (Z.eqb_spec c 0); [done|]. cbn.
    rewrite Hposts, map_to_list_insert by done.
    rewrite filter_cons. cbn. rewrite decide_False by lia. done. }
  assert (feed_rows (Some c) limit db' = feed_rows (Some c) limit db) as ->.
  { unfold feed_rows. f_equal. apply order_by_id_desc_perm; [|done].
    apply candidates_keys. }
  apply list_fmap_ext. intros i r Hr.
  apply list_elem_of_lookup_2 in Hr. unfold feed_rows in Hr.
  apply page_elem in Hr; [|apply candidates_keys].
  apply candidates_elem in Hr as [_ Hlt]; [|by intros [= ?]].
  specialize (Hlt c eq_refl).
  unfold item_of. f_equal. apply map_eq. intros t.
  pose proof (item_of_reactions db r t) as H1.
  pose proof (item_of_reactions db' r t) as H2.
  cbn [item_of feed_reactions] in H1, H2. rewrite H1, H2, Hrows.
  apply seed_rows_other. cbn. lia.
Qed.

Lemma get_feed_stable_under_insert_witness :
  (get_feed (Some 200) 5 (add_post (4 # 10) (4 # 10) "d" three_posts).2).1
  = (get_feed (Some 200) 5 three_posts).1.
Proof.
  apply (get_feed_stable_under_insert three_posts _ 200 5 (4 # 10) (4 # 10) "d" 400).
  - lia.
  - vm_compute. reflexivity.
  - lia.
Defined.

Lemma page_head_max (E : list (Z * post_row)) (n : Z) x :
  NoDup E.*1 → n ≠ 0 → x ∈ E → (∀ y, y ∈ E → y.1 ≤ x.1) →
  ∃ rest, sql_limit n (order_by_id_desc E) = x :: rest.
Proof.
  intros Hnd Hn Hx Hmax.
  pose proof (order_by_id_desc_sorted E) as Hs.
  assert (Hperm : order_by_id_desc E ≡ₚ E)
    by (unfold order_by_id_desc; apply merge_sort_Permutation).
  assert (Hin : x ∈ order_by_id_desc E) by (by rewrite Hperm).
  destruct (order_by_id_desc E) as [|s0 S'] eqn:HS; [by apply elem_of_nil in Hin|].
  assert (s0 = x) as ->.
  { assert (s0 ∈ E) as Hs0 by (rewrite <- Hperm; apply list_elem_of_here).
    apply (keys_inj E); [done..|].
    pose proof (Hmax s0 Hs0) as Hle.
    apply elem_of_cons in Hin as [->|Hin]; [done|].
    apply StronglySorted_cons in Hs as [Hall _].
    rewrite Forall_forall in Hall. specialize (Hall x Hin).
    unfold id_desc in Hall. lia. }
  unfold sql_limit. destruct (Z.ltb_spec n 0); [by eauto|].
  destruct (Z.to_nat n) as [|k] eqn:Hk; [lia|]. cbn. eauto.
Qed.

(** X10: under a non-decreasing clock, the post an [add_post] has just
    created is the first item of the feed read without a cursor (with any
    limit other than 0 inside the 64-bit range), with its text, its ts and
    the three tallies at 0. *)
Theorem add_post_heads_feed (rs : list request) (t_pid t_ts : Q) (text : string)
    (limit pid : Z) (db' : database) :
  Sorted Qle (clock (rs ++ [AddPost t_pid t_ts text])) →
  add_post t_pid t_ts text (run rs empty_db) = (Return pid, db') →
  limit ≠ 0 →
  int64 limit →
  ∃ rest,
    (get_feed None limit db').1
    = Return ({| feed_id := pid; feed_text := text; feed_ts := py_int t_ts;
                 feed_reactions := {["support" := 0; "hug" := 0; "sad" := 0]} |}
              :: rest).
Proof.
  intros Hclock Hadd Hlimit Hrange.
  assert (tallies_match_posts (run rs empty_db)) as Hm
    by apply tallies_match_run, tallies_match_empty.
  apply add_post_returns in Hadd as (Hpid & Hfree & Hposts & Hrows).
  set (row := {| row_text := text; row_ts := py_int t_ts |}) in *.
  destruct (page_head_max (candidates None db') limit (pid, row)) as [rest Hrest].
  - apply candidates_keys.
  - done.
  - apply candidates_elem; [done|]. cbn. rewrite Hposts, lookup_insert_eq.
    split; [done|]. by intros ? [=].
  - intros y Hy. apply candidates_posts in Hy. cbn.
    rewrite Hposts, lookup_insert in Hy. case_decide as Heq; [lia|].
    rewrite Hpid. apply (posts_before_clock rs t_pid t_ts text); eauto.
  - rewrite get_feed_eq by (by split).
    cbn [fst]. unfold feed_rows. rewrite Hrest, fmap_cons.
    exists (item_of db' <$> rest). do 2 f_equal.
    unfold item_of. cbn [fst snd row_text row_ts row]. f_equal.
    apply map_eq. intros t.
    pose proof (item_of_reactions db' (pid, row) t) as Hit.
    cbn [item_of feed_reactions fst] in Hit. rewrite Hit, Hrows.
    rewrite seed_rows_lookup. cbn [fst snd].
    assert (reactions (run rs empty_db) !! (pid, t) = None) as ->.
    { apply eq_None_not_Some. intros Hs. apply Hm in Hs as [[? Hp] _].
      congruence. }
    unfold REACTIONS. rewrite !lookup_insert, lookup_singleton.
    assert (Hin : t ∈ ["support"; "hug"; "sad"] ↔
                  "support" = t ∨ "hug" = t ∨ "sad" = t).
    { rewrite !elem_of_cons, elem_of_nil.
      split; [intros [->|[->|[->|[]]]]; auto|intros [<-|[<-|<-]]; auto]. }
    repeat case_decide; try done; exfalso; tauto.
Qed.

Lemma add_post_heads_feed_witness :
  ∃ rest,
    (get_feed None 20
       (add_post (2 # 10) (2 # 10) "b" (run [AddPost (1 # 10) (1 # 10) "a"] empty_db)).2).1
    = Return ({| feed_id := 200; feed_text := "b"; feed_ts := 0;
                 feed_reactions := {["support" := 0; "hug" := 0; "sad" := 0]} |}
              :: rest).
Proof.
  apply (add_post_heads_feed [AddPost (1 # 10) (1 # 10) "a"] (2 # 10) (2 # 10) "b" 20 200).
  - cbn. repeat constructor; unfold Qle; cbn; lia.
  - vm_compute. reflexivity.
  - lia.
  - unfold int64. lia.
Defined.

(** X11: a reaction shows in the feed and changes nothing else there:
    after an [inc_reaction] that returned, a [get_feed] call raises what
    it raised before or returns the items it returned before, in the same
    order and with the same text and ts; the count of that kind on that
    post is one higher and every other count is as it was. *)
Theorem inc_reaction_in_feed (db db' : database) (post_id : Z) (kind : string)
    (cursor : option Z) (limit : Z) :
  inc_reaction post_id kind db = (Return tt, db') →
  match (get_feed cursor limit db).1, (get_feed cursor limit db').1 with
  | Return items, Return items' =>
      Forall2 (λ it it',
          feed_id it' = feed_id it ∧ feed_text it' = feed_text it ∧
          feed_ts it' = feed_ts it ∧
          ∀ t, feed_reactions it' !! t =
               if bool_decide (feed_id it = post_id ∧ t = kind)
               then (λ n, n + 1) <$> feed_reactions it !! t
               else feed_reactions it !! t)
        items items'
  | Raise e, Raise e' => e = e'
  | _, _ => False
  end.
Proof.
  intros Hinc.
  assert (kind ∈ REACTIONS ∧ int64 post_id) as [Hkind Hid].
  { destruct (decide (kind ∈ REACTIONS)) as [Hk|Hk];
      [|by rewrite inc_reaction_invalid in Hinc].
    split; [done|]. destruct (decide (int64 post_id)) as [|Hn]; [done|].
    by rewrite inc_reaction_overflow in Hinc. }
  destruct (inc_reaction_rows db post_id kind) as [Hposts Hrows].
  cbv zeta in *. rewrite Hinc in Hposts, Hrows. cbn [snd] in *.
  rewrite !get_feed_cases. case_bool_decide; [|done]. cbn [fst].
  assert (feed_rows cursor limit db' = feed_rows cursor limit db) as ->.
  { unfold feed_rows, candidates. by rewrite Hposts. }
  apply Forall2_fmap, Forall_Forall2_diag, Forall_forall. intros r _.
  split_and!; [done..|]. intros t. rewrite !item_of_reactions, Hrows.
  cbn [item_of feed_id]. repeat case_bool_decide; try done; exfalso.
  - destruct_and!. simplify_eq. tauto.
  - destruct_and!. simplify_eq. tauto.
Qed.

Lemma inc_reaction_in_feed_witness :
  ∃ items items',
    (get_feed None 1 three_posts).1 = Return items ∧
    (get_feed None 1 (inc_reaction 300 "hug" three_posts).2).1 = Return items' ∧
    length items = length items'.
Proof.
  pose proof (inc_reaction_in_feed three_posts (inc_reaction 300 "hug" three_posts).2
                300 "hug" None 1) as H.
  assert (Hb : bindable None 1) by (split; [unfold int64; lia|done]).
  rewrite !get_feed_eq in H by done. rewrite !get_feed_eq by done.
  cbn [fst] in *. do 2 eexists. split; [reflexivity|]. split; [reflexivity|].
  eapply Forall2_length, H. vm_compute. reflexivity.
Defined.

(** ** Walking the feed page by page *)

Lemma rows_below_last (db : database) (cursor : option Z) (k : nat) r :
  cursor ≠ Some 0 → r.1 ≠ 0 →
  last (take k (order_by_id_desc (candidates cursor db))) = Some r →
  order_by_id_desc (candidates (Some r.1) db)
  = drop k (order_by_id_desc (candidates cursor db)).
Proof.
  intros Hc Hr Hlast. set (S := order_by_id_desc (candidates cursor db)) in *.
  pose proof (candidates_keys cursor db) as Hkeys.
  assert (HSperm : S ≡ₚ candidates cursor db)
    by (unfold S, order_by_id_desc; apply merge_sort_Permutation).
  assert (HSkeys : NoDup S.*1) by (by rewrite HSperm).
  pose proof (order_by_id_desc_descending _ Hkeys) as Hdesc. fold S in Hdesc.
  apply last_Some in Hlast as [P' HP'].
  assert (HS : S = (P' ++ [r]) ++ drop k S) by (by rewrite <- HP', take_drop).
  set (D := drop k S) in *.
  assert (Hbelow : ∀ d, d ∈ D → d.1 < r.1).
  { intros d Hd. rewrite HS, fmap_app in Hdesc.
    apply (StronglySorted_app_1_elem_of _ _ _ r.1 d.1) in Hdesc; [done| |].
    - apply list_elem_of_fmap_2. set_solver.
    - by apply list_elem_of_fmap_2. }
  assert (Habove : ∀ p, p ∈ P' → r.1 < p.1).
  { intros p Hp. rewrite HS, !fmap_app in Hdesc.
    apply StronglySorted_app_1_l in Hdesc.
    apply (StronglySorted_app_1_elem_of _ _ _ p.1 r.1) in Hdesc; [done| |].
    - by apply list_elem_of_fmap_2.
    - cbn. apply list_elem_of_here. }
  assert (HrS : r ∈ candidates cursor db).
  { rewrite <- HSperm, HS. set_solver. }
  apply candidates_elem in HrS as [_ Hrc]; [|done].
  apply id_desc_sorted_unique.
  - unfold order_by_id_desc. rewrite merge_sort_Permutation.
    apply candidates_keys.
  - unfold order_by_id_desc. rewrite merge_sort_Permutation.
    apply NoDup_Permutation.
    + apply (NoDup_fmap_1 fst), candidates_keys.
    + apply (NoDup_fmap_1 fst). rewrite HS, fmap_app in HSkeys.
      by apply NoDup_app in HSkeys as (_ & _ & ?).
    + intros x. rewrite candidates_elem by (by intros [= ?]). split.
      * intros [Hx Hlt]. specialize (Hlt _ eq_refl).
        assert (x ∈ S) as HxS.
        { rewrite HSperm. apply candidates_elem; [done|]. split; [done|].
          intros c0 Hc0. specialize (Hrc c0 Hc0). lia. }
        rewrite HS, !elem_of_app, list_elem_of_singleton in HxS.
        destruct HxS as [[Hp| ->]|?]; [|lia|done].
        specialize (Habove x Hp). lia.
      * intros Hx. split.
        -- apply (candidates_posts cursor). rewrite <- HSperm, HS. set_solver.
        -- intros ? [= <-]. by apply Hbelow.
  - apply order_by_id_desc_sorted.
  - pose proof (order_by_id_desc_sorted (candidates cursor db)) as Hs.
    fold S in Hs. rewrite HS in Hs. by apply StronglySorted_app_1_r in Hs.
Qed.

(** X12: pages follow one another without gap or overlap: when a page of
    limit [n] ends in a post with a non-zero id, the page of limit [m]
    read with that id as the cursor is what follows, so that both together
    are the page of limit [n + m] read from the first cursor.  The id, as
    every stored id, and the sum of the limits are inside the 64-bit
    range. *)
Theorem get_feed_next_page (db : database) (cursor : option Z) (n m : Z)
    (items : list feed_item) (it : feed_item) :
  cursor ≠ Some 0 → 0 ≤ n → 0 ≤ m →
  (get_feed cursor n db).1 = Return items →
  last items = Some it →
  feed_id it ≠ 0 →
  int64 (feed_id it) → int64 (n + m) →
  ∃ items',
    (get_feed (Some (feed_id it)) m db).1 = Return items' ∧
    (get_feed cursor (n + m) db).1 = Return (items ++ items').
Proof.
  intros Hc Hn Hm Hget Hlast Hit Hid Hsum.
  rewrite get_feed_cases in Hget. case_bool_decide as Hb; [|done].
  cbn [fst] in Hget. injection Hget as <-.
  assert (int64 m) by (unfold int64 in *; lia).
  rewrite (get_feed_eq (Some (feed_id it)) m db) by (by split).
  rewrite (get_feed_eq cursor (n + m) db) by (split; [done|apply Hb]).
  cbn [fst].
  rewrite fmap_last in Hlast. unfold feed_rows, sql_limit in *.
  destruct (Z.ltb_spec n 0); [lia|]. destruct (Z.ltb_spec m 0); [lia|].
  destruct (Z.ltb_spec (n + m) 0); [lia|].
  destruct (last (take (Z.to_nat n) (order_by_id_desc (candidates cursor db))))
    as [r|] eqn:Hr; [|done].
  injection Hlast as <-. cbn [item_of feed_id] in *.
  rewrite (rows_below_last db cursor (Z.to_nat n) r) by done.
  eexists. split; [reflexivity|].
  rewrite <- fmap_app, take_take_drop. by rewrite Z2Nat.inj_add.
Qed.

Lemma get_feed_next_page_witness :
  ∃ items',
    (get_feed (Some 200) 2 three_posts).1 = Return items' ∧
    page_ids (get_feed None 4 three_posts)
    = page_ids (get_feed None 2 three_posts) ++ (feed_id <$> items').
Proof.
  pose (it := item_of three_posts (200, {| row_text := "b"; row_ts := 0 |})).
  pose (first := item_of three_posts (300, {| row_text := "c"; row_ts := 0 |})).
  assert (H0 : (get_feed None 2 three_posts).1 = Return [first; it])
    by (vm_compute; reflexivity).
  destruct (get_feed_next_page three_posts None 2 2 [first; it] it)
    as (items' & H1 & H2).
  - discriminate.
  - lia.
  - lia.
  - exact H0.
  - reflexivity.
  - cbn. lia.
  - cbn. unfold int64. lia.
  - unfold int64. lia.
  - exists items'. split; [exact H1|].
    unfold page_ids. change (2 + 2) with 4 in H2. rewrite H2, H0.
    apply fmap_app.
Defined.

(** * The bot and the process *)

(** ** Stripping *)

Lemma rstrip_idemp cs : rstrip (rstrip cs) = rstrip cs.
Proof.
  induction cs as [|c cs IH]; [done|]. cbn [rstrip].
  destruct (rstrip cs) as [|b r] eqn:Hr.
  - destruct (isspace c) eqn:Hc; [done|]. cbn. by rewrite Hc.
  - cbn [rstrip]. cbn [rstrip] in IH. by rewrite IH.
Qed.

Lemma lstrip_clean cs : clean_head (lstrip cs).
Proof.
  induction cs as [|c cs IH]; [done|]. cbn [lstrip].
  by destruct (isspace c) eqn:Hc.
Qed.

Lemma rstrip_clean cs : clean_head cs → clean_head (rstrip cs).
Proof.
  destruct cs as [|c cs]; [done|]. cbn. intros Hc.
  destruct (rstrip cs); [by rewrite Hc|done].
Qed.

Lemma lstrip_of_clean cs : clean_head cs → lstrip cs = cs.
Proof. destruct cs as [|c cs]; [done|]. cbn. by intros ->. Qed.

Lemma chars_cons a s : ∃ c cs, chars (String a s) = String a c :: cs.
Proof.
  cbn [chars]. destruct (chars s) as [|[|b c] cs]; [by eauto..|].
  destruct (continuation b); eauto.
Qed.

Lemma chars_chunk a t s :
  all_continuation t = true →
  (s = "" ∨ ∃ b s', s = String b s' ∧ continuation b = false) →
  chars (String a (t +:+ s)) = String a t :: chars s.
Proof.
  intros Ht Hs. revert a. induction t as [|b t IH]; intros a.
  - destruct Hs as [->|(b & s' & -> & Hb)]; [done|].
    destruct (chars_cons b s') as (c & cs & Hc).
    change (chars (String a ("" +:+ String b s'))) with
      (match chars (String b s') with
       | String b' c :: cs =>
           if continuation b' then String a (String b' c) :: cs
           else String a EmptyString :: String b' c :: cs
       | cs => String a EmptyString :: cs
       end).
    rewrite Hc, Hb. done.
  - cbn in Ht. apply andb_true_iff in Ht as [Hb Ht].
    change (chars (String a (String b t +:+ s))) with
      (match chars (String b (t +:+ s)) with
       | String b' c :: cs =>
           if continuation b' then String a (String b' c) :: cs
           else String a EmptyString :: String b' c :: cs
       | cs => String a EmptyString :: cs
       end).
    rewrite (IH Ht b), Hb. done.
Qed.

Lemma lead_join cs :
  Forall lead_chunk cs →
  join cs = "" ∨ ∃ b s', join cs = String b s' ∧ continuation b = false.
Proof.
  intros H. destruct H as [|c cs' Hc _]; [by left|].
  destruct c as [|b t]; [done|]. destruct Hc as [Hb _]. right. cbn. eauto.
Qed.

Lemma chars_join_lead cs : Forall lead_chunk cs → chars (join cs) = cs.
Proof.
  induction 1 as [|c cs Hc Hcs IH]; [done|].
  destruct c as [|a t]; [done|]. destruct Hc as [_ Ht].
  change (join (String a t :: cs)) with (String a (t +:+ join cs)).
  rewrite chars_chunk; [by rewrite IH|done|by apply lead_join].
Qed.

Lemma chars_join cs : chunked cs → chars (join cs) = cs.
Proof.
  destruct cs as [|[|a t] cs]; [done|by intros [[] _]|]. intros [Ht Hcs].
  change (join (String a t :: cs)) with (String a (t +:+ join cs)).
  rewrite chars_chunk; [by rewrite chars_join_lead|done|by apply lead_join].
Qed.

Lemma chars_chunked s : chunked (chars s).
Proof.
  induction s as [|a s IH]; [done|]. cbn [chars].
  destruct (chars s) as [|[|b c] cs]; [done|by destruct IH as [[] _]|].
  destruct IH as [Hc Hcs]. destruct (continuation b) eqn:Hb.
  - split; [|done]. cbn. by rewrite Hb, Hc.
  - split; [done|]. constructor; [|done]. by split.
Qed.

Lemma lead_chunked cs : Forall lead_chunk cs → chunked cs.
Proof.
  intros H. destruct H as [|c cs' Hc Hcs]; [done|].
  destruct c as [|a t]; [done|]. destruct Hc as [_ Ht]. by split.
Qed.

Lemma lstrip_chunked cs : chunked cs → chunked (lstrip cs).
Proof.
  destruct cs as [|c cs]; [done|]. intros [Hc Hcs]. cbn [lstrip].
  destruct (isspace c); [|by split]. apply lead_chunked.
  clear Hc. induction Hcs as [|c' cs' Hc' Hcs' IH]; [constructor|].
  cbn [lstrip]. destruct (isspace c'); [|by constructor].
  apply Forall_forall. intros x Hx. apply lead_chunked in IH.
  rewrite Forall_forall in Hcs'. clear IH.
  assert (Hsub : ∀ l : list string, ∀ y, y ∈ lstrip l → y ∈ l).
  { induction l as [|z l IHl]; [done|]. cbn [lstrip]. intros y.
    destruct (isspace z); [|done]. intros ?. right. by apply IHl. }
  by apply Hcs', Hsub.
Qed.

Lemma rstrip_Forall (P : string → Prop) cs : Forall P cs → Forall P (rstrip cs).
Proof.
  induction 1 as [|c cs Hc Hcs IH]; [constructor|]. cbn [rstrip].
  destruct (rstrip cs) as [|b r].
  - destruct (isspace c); by repeat constructor.
  - by constructor.
Qed.

Lemma rstrip_chunked cs : chunked cs → chunked (rstrip cs).
Proof.
  destruct cs as [|c cs]; [done|]. intros [Hc Hcs]. cbn [rstrip].
  pose proof (rstrip_Forall lead_chunk cs Hcs) as Hr.
  destruct (rstrip cs) as [|b r].
  - destruct (isspace c); [done|]. by split.
  - by split.
Qed.

Lemma strip_idemp s : strip (strip s) = strip s.
Proof.
  unfold strip. rewrite chars_join.
  - rewrite (lstrip_of_clean (rstrip (lstrip (chars s)))).
    + by rewrite rstrip_idemp.
    + apply rstrip_clean, lstrip_clean.
  - apply rstrip_chunked, lstrip_chunked, chars_chunked.
Qed.

Lemma strip_trimmed s : strip s ≠ "" → trimmed (strip s).
Proof. intros Hs. split; [apply strip_idemp|done]. Qed.

Lemma add_post_trimmed t_pid t_ts text db :
  trimmed text → posts_trimmed db → posts_trimmed (add_post t_pid t_ts text db).2.
Proof.
  intros Ht Hdb. rewrite add_post_eq. cbn zeta.
  destruct (posts db !! py_int (t_pid * 1000)%Q) eqn:Hfree; [done|].
  intros id r. cbn [snd posts]. rewrite lookup_insert. case_decide.
  - by intros [= <-].
  - apply Hdb.
Qed.

(** ** Conversations *)

Section conversations.
Variable WEBAPP_URL : string.
Variable CommandStart : message → bool.

Local Abbreviation dispatch' := (dispatch WEBAPP_URL CommandStart).

Lemma blank_not_newpost m :
  strip (default "" (msg_text m)) = "" → msg_text m ≠ Some "/newpost".
Proof. intros Hblank Hm. rewrite Hm in Hblank. discriminate Hblank. Qed.

(** X13: a conversation that awaits the text of a post and receives a
    message without text, or with blank text, is answered with one reply
    (the complaint that the text is empty) and stays as it is: it still
    awaits the text, and the store is untouched. *)
Theorem dispatch_blank_text (t_pid t_ts : Q) (m : message) (s : session) :
  fsm s = Some NewPost_text →
  CommandStart m = false →
  strip (default "" (msg_text m)) = "" →
  dispatch' t_pid t_ts m s
  = (Return tt,
     {| fsm := Some NewPost_text;
        outbox := outbox s ++ [{| reply_text := "Пусто."; reply_markup := None |}];
        store := store s |}).
Proof.
  intros Hfsm Hcs Hblank. unfold dispatch. rewrite Hcs.
  rewrite bool_decide_eq_false_2 by (by apply blank_not_newpost).
  rewrite bool_decide_eq_true_2 by done.
  unfold save_post. rewrite bool_decide_eq_true_2 by done.
  unfold answer. by rewrite Hfsm.
Qed.



(** X15: the /newpost command, where [CommandStart] does not take the
    message, opens a draft only in a private chat: there the conversation
    comes to await the text, elsewhere its state is left as it was; in
    both cases one reply is sent and the store is untouched, also when a
    draft was already open. *)
Theorem dispatch_newpost (t_pid t_ts : Q) (m : message) (s : session) :
  CommandStart m = false →
  msg_text m = Some "/newpost" →
  ∃ rep,
    dispatch' t_pid t_ts m s
    = (Return tt,
       {| fsm := if bool_decide (chat_type m = "private")
                 then Some NewPost_text else fsm s;
          outbox := outbox s ++ [rep];
          store := store s |}) ∧
    reply_markup rep = None.
Proof.
  intros Hcs Hm. unfold dispatch. rewrite Hcs.
  rewrite bool_decide_eq_true_2 by done. unfold newpost.
  destruct (decide (chat_type m = "private")) as [Hp|Hp].
  - rewrite bool_decide_eq_false_2 by (by intros ?).
    rewrite bool_decide_eq_true_2 by done. eexists. split; [reflexivity|done].
  - rewrite bool_decide_eq_true_2 by done.
    rewrite bool_decide_eq_false_2 by done. eexists. split; [reflexivity|done].
Qed.

(** X16: an idle conversation never writes to the store: whatever the
    message, the update is handled without an exception, exactly one reply
    is sent, the store is untouched, and the conversation leaves the idle
    state only for the /newpost command in a private chat. *)
Theorem dispatch_idle (t_pid t_ts : Q) (m : message) (s : session) :
  fsm s = None →
  ∃ rep st,
    dispatch' t_pid t_ts m s
    = (Return tt, {| fsm := st; outbox := outbox s ++ [rep]; store := store s |}) ∧
    (st ≠ None →
     CommandStart m = false ∧ msg_text m = Some "/newpost" ∧ chat_type m = "private").
Proof.
  intros Hfsm. unfold dispatch.
  destruct (CommandStart m) eqn:Hcs.
  { do 2 eexists. split; [reflexivity|]. cbn. by rewrite Hfsm. }
  case_bool_decide as Hcmd.
  { unfold newpost. case_bool_decide as Hp.
    - do 2 eexists. split; [reflexivity|]. cbn. by rewrite Hfsm.
    - do 2 eexists. split; [reflexivity|]. cbn. intros _.
      split_and!; [done..|]. by destruct (decide (chat_type m = "private")). }
  rewrite bool_decide_eq_false_2 by (by rewrite Hfsm).
  do 2 eexists. split; [reflexivity|]. cbn. by rewrite Hfsm.
Qed.

End conversations.

Lemma dispatch_blank_text_witness :
  (dispatch "https://app" bare_start (1 # 10) (1 # 10)
     {| chat_type := "private"; msg_text := None |} drafting).2
  = answer "Пусто." None drafting.
Proof.
  rewrite (dispatch_blank_text "https://app" bare_start); reflexivity.
Defined.


Lemma dispatch_newpost_witness :
  fsm (dispatch "https://app" bare_start (1 # 10) (1 # 10)
         {| chat_type := "group"; msg_text := Some "/newpost" |} fresh).2 = None ∧
  fsm (dispatch "https://app" bare_start (1 # 10) (1 # 10)
         {| chat_type := "private"; msg_text := Some "/newpost" |} fresh).2
    = Some NewPost_text.
Proof.
  split.
  - destruct (dispatch_newpost "https://app" bare_start (1 # 10) (1 # 10)
                {| chat_type := "group"; msg_text := Some "/newpost" |} fresh)
      as (rep & -> & _); reflexivity.
  - destruct (dispatch_newpost "https://app" bare_start (1 # 10) (1 # 10)
                {| chat_type := "private"; msg_text := Some "/newpost" |} fresh)
      as (rep & -> & _); reflexivity.
Defined.

Lemma dispatch_idle_witness :
  store (dispatch "https://app" bare_start (1 # 10) (1 # 10)
           {| chat_type := "private"; msg_text := Some "hello" |} fresh).2
  = empty_db.
Proof.
  destruct (dispatch_idle "https://app" bare_start (1 # 10) (1 # 10)
              {| chat_type := "private"; msg_text := Some "hello" |} fresh)
    as (rep & st & -> & _); reflexivity.
Defined.


(** ** The process *)

Lemma run_app rs1 rs2 db : run (rs1 ++ rs2) db = run rs2 (run rs1 db).
Proof. apply foldl_app. Qed.

Lemma api_bot_post_store secret t_pid t_ts data_text hdr db :
  (api_bot_post secret t_pid t_ts data_text hdr db).2 = db ∨
  (strip data_text ≠ "" ∧
   (api_bot_post secret t_pid t_ts data_text hdr db).2
   = (add_post t_pid t_ts (strip data_text) db).2).
Proof.
  unfold api_bot_post. case_bool_decide; [by left|].
  case_bool_decide; [by left|]. right. split; [done|].
  by destruct (add_post t_pid t_ts (strip data_text) db) as [[pid|e] db'].
Qed.

Lemma api_react_store post_id data_type db :
  (api_react post_id data_type db).2 = (inc_reaction post_id data_type db).2.
Proof.
  unfold api_react.
  by destruct (inc_reaction post_id data_type db) as [[[]|[msg| |]] db'].
Qed.

Lemma dispatch_store url cs t_pid t_ts m s :
  store (dispatch url cs t_pid t_ts m s).2 = store s ∨
  (strip (default "" (msg_text m)) ≠ "" ∧
   store (dispatch url cs t_pid t_ts m s).2
   = (add_post t_pid t_ts (strip (default "" (msg_text m))) (store s)).2).
Proof.
  unfold dispatch. destruct (cs m); [by left|].
  case_bool_decide; [unfold newpost; case_bool_decide; by left|].
  case_bool_decide; [|by left]. unfold save_post.
  case_bool_decide; [by left|]. right. split; [done|].
  by destruct (add_post t_pid t_ts _ (store s)) as [[pid|e] db'].
Qed.

Section process.
Variable BOT_SECRET WEBAPP_URL : string.
Variable CommandStart : message → bool.

Local Abbreviation handle' := (handle BOT_SECRET WEBAPP_URL CommandStart).
Local Abbreviation handle_all' := (handle_all BOT_SECRET WEBAPP_URL CommandStart).

Lemma handle_store p ev :
  ∃ rs, Forall trimmed_request rs ∧ (length rs ≤ 1)%nat ∧
        pstore (handle' p ev) = run rs (pstore p).
Proof.
  destruct ev as [cursor limit|t_pid t_ts data_text hdr|post_id data_type
                 |chat user t_pid t_ts m];
    cbn [handle with_store close pstore].
  - exists []. split; [constructor|]. split; [cbn; lia|].
    unfold api_feed.
    by destruct (get_feed cursor _ (pstore p)) as [[items|e] db'] eqn:Hg;
      apply (f_equal snd) in Hg; rewrite get_feed_snd in Hg.
  - destruct (api_bot_post_store BOT_SECRET t_pid t_ts data_text hdr (pstore p))
      as [->|[Htext ->]].
    + exists []. split; [constructor|]. split; [cbn; lia|done].
    + exists [AddPost t_pid t_ts (strip data_text)].
      split; [|split; [cbn; lia|done]].
      constructor; [|constructor]. by apply strip_trimmed.
  - exists [IncReaction post_id data_type].
    split; [by repeat constructor|]. split; [cbn; lia|]. apply api_react_store.
  - destruct (dispatch_store WEBAPP_URL CommandStart t_pid t_ts m
                (conversation p chat user)) as [->|[Htext ->]].
    + exists []. split; [constructor|]. split; [cbn; lia|done].
    + exists [AddPost t_pid t_ts (strip (default "" (msg_text m)))].
      split; [|split; [cbn; lia|done]].
      constructor; [|constructor]. by apply strip_trimmed.
Qed.

Lemma process_store_aux (evs : list event) (p : process) :
  ∃ rs, Forall trimmed_request rs ∧ (length rs ≤ length evs)%nat ∧
        pstore (handle_all' evs p) = run rs (pstore p).
Proof.
  revert p. induction evs as [|ev evs IH]; intros p.
  - exists []. split; [constructor|]. split; [cbn; lia|done].
  - destruct (handle_store p ev) as (rs0 & Hrs0 & Hlen0 & Hstep).
    destruct (IH (handle' p ev)) as (rs & Hrs & Hlen & Hrun).
    exists (rs0 ++ rs). split; [by apply Forall_app|].
    split; [rewrite length_app; cbn; lia|].
    rewrite run_app, <- Hstep. exact Hrun.
Qed.

(** X18: whatever requests the API serves and whatever updates the bot
    handles, from whatever chats and users, the store they leave is one
    the store operations reach from the empty database: each event is at
    most one [add_post], with a trimmed text, or one [inc_reaction], or
    nothing. *)
Theorem process_store (evs : list event) :
  ∃ rs, Forall trimmed_request rs ∧ (length rs ≤ length evs)%nat ∧
        pstore (handle_all' evs started) = run rs empty_db.
Proof.
  destruct (process_store_aux evs started) as (rs & Hrs & Hlen & Hrun).
  exists rs. split_and!; [exact Hrs|exact Hlen|exact Hrun].
Qed.

Lemma run_posts_trimmed rs db :
  Forall trimmed_request rs → posts_trimmed db → posts_trimmed (run rs db).
Proof.
  intros Hrs. revert db. induction Hrs as [|r rs Hr _ IH]; intros db Hdb; [done|].
  rewrite run_cons. apply IH.
  destruct r as [|t_pid t_ts text|cursor limit|post_id rtype]; cbn [step].
  - done.
  - by apply add_post_trimmed.
  - by rewrite get_feed_snd.
  - destruct (inc_reaction_rows db post_id rtype) as [Hposts _].
    cbv zeta in Hposts. unfold posts_trimmed. by rewrite Hposts.
Qed.

(** X19: in every state of the process every stored post has a text that
    is stripped and not empty, and exactly the three tally rows support,
    hug and sad. *)
Theorem process_invariant (evs : list event) :
  posts_trimmed (pstore (handle_all' evs started)) ∧
  tallies_complete (pstore (handle_all' evs started)).
Proof.
  destruct (process_store_aux evs started) as (rs & Hrs & _ & Hrun).
  rewrite Hrun. split.
  - apply run_posts_trimmed; [done|]. intros id r. cbn. by rewrite lookup_empty.
  - apply tallies_match_complete, tallies_match_run, tallies_match_empty.
Qed.
End process.

(** X20: what [POST /posts/{id}/react] answers depends on the kind and on
    whether the post id is inside the 64-bit range: 400 for a kind that is
    not support, hug or sad; for a valid kind [{ok: true}], whether or not
    the post exists, when the id is inside the range, and an unhandled
    [OverflowError] when it is not.  It never touches the posts table. *)
Theorem api_react_response (post_id : Z) (data_type : string) (db : database) :
  (api_react post_id data_type db).1
  = (if bool_decide (data_type ∈ REACTIONS)
     then if bool_decide (int64 post_id)
          then Ok200 {| ack_ok := true |}
          else Unhandled OverflowError
     else HTTPException 400 "bad reaction") ∧
  posts (api_react post_id data_type db).2 = posts db.
Proof.
  rewrite api_react_store.
  destruct (inc_reaction_rows db post_id data_type) as [Hposts _].
  split; [|exact Hposts]. unfold api_react. case_bool_decide.
  - case_bool_decide.
    + by rewrite inc_reaction_valid.
    + by rewrite inc_reaction_overflow.
  - by rewrite inc_reaction_invalid.
Qed.

(** Two users: the draft that user 1 opens in chat 1 is not open for user
    2, whose text gets the fallback reply; the text of user 1 is
    published. *)
Example two_conversations :
  let text m := {| chat_type := "private"; msg_text := Some m |} in
  let p := handle_all "s3cret" "https://app" bare_start
             [Update 1 1 (1 # 10) (1 # 10) (text "/newpost");
              Update 2 2 (2 # 10) (2 # 10) (text "from two");
              Update 1 1 (3 # 10) (3 # 10) (text "from one")] started in
  posts (pstore p) = {[300 := {| row_text := "from one"; row_ts := 0 |}]} ∧
  states p = ∅ ∧
  (sent p).*1 = [1; 2; 1].
Proof. cbv zeta. split_and!; vm_compute; reflexivity. Qed.
